(** * TrueReach: the email-validation engine (lib/email-validation.ts)

    A shallow embedding of the scoring engine of the TrueReach front end:
    the structural checks on an address (domain grammar, disposable
    provider, role account), the three simulated probes, the weighted score,
    the status classifier and the orchestrator [validateEmail].

    The pages that call the engine follow it: the address generator, the
    description shown for a verdict, and the bulk page (reading the uploaded
    file, validating its addresses, writing the download).

    JavaScript strings are modelled as [string] (8-bit code units, read as
    Latin-1 where case matters), JavaScript numbers as binary64 floats
    ([PrimFloat]), regular-expression literals as a syntax tree run by a
    derivative matcher, and [Math.random] as a sequence of draws read
    through a cursor kept in the state. *)

From Stdlib Require Import ZArith NArith QArith Qround List Bool Ascii String Lia.
From Stdlib Require Import PrimFloat FloatOps SpecFloat.
Import ListNotations.

Close Scope Q_scope.

Local Open Scope string_scope.

(* Decimal literals such as 0.15 denote the nearest binary64 value, as in
   JavaScript. *)
Set Warnings "-inexact-float".

(* ================================================================== *)
(** ** JavaScript string primitives *)
(* ================================================================== *)

Module JS.

(** [s.includes(c)] for a one-character needle. *)
Fixpoint includes (c : ascii) (s : string) : bool :=
  match s with
  | EmptyString => false
  | String x s' => if Ascii.eqb x c then true else includes c s'
  end.

(** [s.split(sep)] for a one-character separator: the segments between
    the occurrences of [sep], in order; the result is never empty and
    [''.split(sep)] is [['']]. *)
Fixpoint split (sep : ascii) (s : string) : list string :=
  match s with
  | EmptyString => [EmptyString]
  | String c s' =>
      if Ascii.eqb c sep then EmptyString :: split sep s'
      else match split sep s' with
           | seg :: rest => String c seg :: rest
           | [] => [String c EmptyString]
           end
  end.

(** [String.prototype.toLowerCase] on one code unit below 256: the ASCII
    capitals and the Latin-1 capitals U+00C0..U+00DE (U+00D7, the
    multiplication sign, apart) move up by 32. *)
Definition toLowerCase_ascii (c : ascii) : ascii :=
  let n := N_of_ascii c in
  if ((65 <=? n) && (n <=? 90))%N
     || ((192 <=? n) && (n <=? 222) && negb (n =? 215))%N
  then ascii_of_N (n + 32) else c.

Fixpoint toLowerCase (s : string) : string :=
  match s with
  | EmptyString => EmptyString
  | String c s' => String (toLowerCase_ascii c) (toLowerCase s')
  end.

(** [s.startsWith(p)]. *)
Fixpoint startsWith (p s : string) : bool :=
  match p with
  | EmptyString => true
  | String a p' =>
      match s with
      | EmptyString => false
      | String b s' => Ascii.eqb a b && startsWith p' s'
      end
  end.

(** [arr.includes(x)] on an array of strings. *)
Definition arr_includes (arr : list string) (x : string) : bool :=
  existsb (String.eqb x) arr.

(** Truthiness of a possibly undefined string: [undefined] and [''] are
    falsy. *)
Definition truthy (v : option string) : bool :=
  match v with
  | None => false
  | Some s => negb (String.eqb s EmptyString)
  end.

(** [arr[arr.length - 1]] on a non-empty array of strings. *)
Definition last_segment (arr : list string) : string := last arr EmptyString.

(** The values [Math.round] returns: an integer-valued number, [NaN] or an
    infinity (the sign of a zero is not kept). *)
Inductive number : Type :=
| Num (z : Z)
| NaN
| Infinity (negative : bool).

(** [Math.min(a, b)] and [Math.max(a, b)]: [NaN] when an argument is. *)
Definition Math_min (a b : float) : float :=
  if is_nan a || is_nan b then nan else if PrimFloat.ltb b a then b else a.

Definition Math_max (a b : float) : float :=
  if is_nan a || is_nan b then nan else if PrimFloat.ltb a b then b else a.

(** [Math.round(x)]: the integer nearest to [x], a tie going up, that is
    floor (x + 1/2) computed exactly on the value [m * 2^e] of [x]. *)
Definition Math_round (x : float) : number :=
  match Prim2SF x with
  | S754_zero _ => Num 0
  | S754_infinity s => Infinity s
  | S754_nan => NaN
  | S754_finite s m e =>
      let n := if s then Z.neg m else Z.pos m in
      if (0 <=? e)%Z then Num (n * 2 ^ e)
      else Num ((2 * n + 2 ^ (- e)) / 2 ^ (- e + 1))
  end.

(** [a >= b] where [a] is a rounded number and [b] an integer literal. *)
Definition number_geb (a : number) (b : Z) : bool :=
  match a with
  | Num z => (b <=? z)%Z
  | NaN => false
  | Infinity negative => negb negative
  end.

(** [a <= b] on rounded numbers. *)
Definition number_leb (a b : number) : bool :=
  match a, b with
  | NaN, _ | _, NaN => false
  | Infinity true, _ => true
  | _, Infinity false => true
  | Infinity false, _ => false
  | _, Infinity true => false
  | Num x, Num y => (x <=? y)%Z
  end.

End JS.

(* ================================================================== *)
(** ** Regular expressions *)
(* ================================================================== *)

Module Regex.

(** An item of a character class: [a-z] or a single character. *)
Inductive item : Type :=
| Range (lo hi : ascii)
| Single (c : ascii).

Definition in_item (c : ascii) (i : item) : bool :=
  match i with
  | Range lo hi =>
      ((N_of_ascii lo <=? N_of_ascii c) && (N_of_ascii c <=? N_of_ascii hi))%N
  | Single x => Ascii.eqb c x
  end.

Definition in_class (cls : list item) (c : ascii) : bool :=
  existsb (in_item c) cls.

Inductive regex : Type :=
| Void                       (* matches nothing; only derivatives make it *)
| Eps                        (* the empty string *)
| Cls (cls : list item)      (* [...] *)
| Seq (r1 r2 : regex)        (* r1 r2 *)
| Alt (r1 r2 : regex)        (* r1 | r2 *)
| Star (r : regex).          (* r* *)

(** [r?], [r+] and [r{0,n}]. *)
Definition Opt (r : regex) : regex := Alt r Eps.
Definition Plus (r : regex) : regex := Seq r (Star r).
Fixpoint Upto (n : nat) (r : regex) : regex :=
  match n with
  | O => Eps
  | S n' => Opt (Seq r (Upto n' r))
  end.

Fixpoint nullable (r : regex) : bool :=
  match r with
  | Void => false
  | Eps => true
  | Cls _ => false
  | Seq r1 r2 => nullable r1 && nullable r2
  | Alt r1 r2 => nullable r1 || nullable r2
  | Star _ => true
  end.

(** Brzozowski derivative of [r] by the character [c]. *)
Fixpoint deriv (c : ascii) (r : regex) : regex :=
  match r with
  | Void => Void
  | Eps => Void
  | Cls cls => if in_class cls c then Eps else Void
  | Seq r1 r2 =>
      if nullable r1 then Alt (Seq (deriv c r1) r2) (deriv c r2)
      else Seq (deriv c r1) r2
  | Alt r1 r2 => Alt (deriv c r1) (deriv c r2)
  | Star r1 => Seq (deriv c r1) (Star r1)
  end.

(** [/^r$/.test(s)]: the whole of [s] matches [r]. *)
Fixpoint test (r : regex) (s : string) : bool :=
  match s with
  | EmptyString => nullable r
  | String c s' => test (deriv c r) s'
  end.

(** The language of a regular expression, to state what [test] decides. *)
Inductive star (L : string -> Prop) : string -> Prop :=
| star_nil : star L EmptyString
| star_app s1 s2 : L s1 -> star L s2 -> star L (s1 ++ s2).

Fixpoint lang (r : regex) (s : string) : Prop :=
  match r with
  | Void => False
  | Eps => s = EmptyString
  | Cls cls => exists c, s = String c EmptyString /\ in_class cls c = true
  | Seq r1 r2 => exists s1 s2, s = s1 ++ s2 /\ lang r1 s1 /\ lang r2 s2
  | Alt r1 r2 => lang r1 s \/ lang r2 s
  | Star r1 => star (lang r1) s
  end.

End Regex.

(* ================================================================== *)
(** ** The engine: pure checks *)
(* ================================================================== *)

Import JS Regex.

Definition alnum : list item :=
  [Range "a" "z"; Range "A" "Z"; Range "0" "9"].

Definition alnum_hyphen : list item :=
  [Range "a" "z"; Range "A" "Z"; Range "0" "9"; Single "-"].

Definition alpha : list item :=
  [Range "a" "z"; Range "A" "Z"].

(** [[a-zA-Z0-9.!#$%&'*+/=?^_`{|}~-]] *)
Definition local_chars : list item :=
  [Range "a" "z"; Range "A" "Z"; Range "0" "9"; Single "."; Single "!";
   Single "#"; Single "$"; Single "%"; Single "&"; Single "'"; Single "*";
   Single "+"; Single "/"; Single "="; Single "?"; Single "^"; Single "_";
   Single "`"; Single "{"; Single "|"; Single "}"; Single "~"; Single "-"].

(** [[a-zA-Z0-9]([a-zA-Z0-9-]{0,61}[a-zA-Z0-9])?] *)
Definition label : regex :=
  Seq (Cls alnum) (Opt (Seq (Upto 61 (Cls alnum_hyphen)) (Cls alnum))).

(** [label(\.label)*], the body shared by the two anchored literals. *)
Definition labels : regex :=
  Seq label (Star (Seq (Cls [Single "."]) label)).

Definition RFC5322_EMAIL_REGEX : regex :=
  Seq (Plus (Cls local_chars)) (Seq (Cls [Single "@"]) labels).

Definition domainRegex : regex := labels.

(** [/^[a-zA-Z]+$/] *)
Definition tldRegex : regex := Plus (Cls alpha).

(** [validateDomain]: the domain is the second [@]-separated segment. *)
Definition validateDomain (email : string) : bool :=
  if negb (includes "@" email) then false
  else
    let domain := nth_error (split "@" email) 1 in
    match domain with
    | None => false
    | Some domain =>
        if String.eqb domain "" then false
        else if negb (test domainRegex domain) then false
        else
          let parts := split "." domain in
          let tld := last_segment parts in
          (2 <=? String.length tld)%nat && test tldRegex tld
    end.

Definition disposableDomains : list string :=
  ["10minutemail.com"; "guerrillamail.com"; "mailinator.com"; "tempmail.org";
   "throwaway.email"; "temp-mail.org"; "yopmail.com"; "maildrop.cc";
   "sharklasers.com"; "guerrillamailblock.com"; "pokemail.net"; "spam4.me";
   "tempail.com"; "tempmailaddress.com"; "emailondeck.com"; "mohmal.com";
   "mytrashmail.com"; "mailnesia.com"; "trashmail.com"; "dispostable.com"].

(** [isDisposableEmail]: [email.split('@')[1]?.toLowerCase()] looked up in
    the deny-list; an undefined or empty domain gives false. *)
Definition isDisposableEmail (email : string) : bool :=
  let domain := option_map toLowerCase (nth_error (split "@" email) 1) in
  if negb (truthy domain) then false
  else
    match domain with
    | Some domain => arr_includes disposableDomains domain
    | None => false
    end.

Definition roleBasedPrefixes : list string :=
  ["admin"; "administrator"; "info"; "support"; "sales"; "contact"; "help";
   "noreply"; "no-reply"; "webmaster"; "postmaster"; "hostmaster"; "abuse";
   "security"; "privacy"; "legal"; "billing"; "accounts"; "marketing";
   "hr"; "careers"; "jobs"; "recruitment"; "press"; "media"; "news"].

(** The predicate handed to [roleBasedPrefixes.some]. *)
Definition role_match (localPart prefix : string) : bool :=
  String.eqb localPart prefix
  || startsWith (prefix ++ ".") localPart
  || startsWith (prefix ++ "-") localPart.

(** [isRoleBasedEmail]: [email.split('@')[0]?.toLowerCase()] tried against
    each prefix. *)
Definition isRoleBasedEmail (email : string) : bool :=
  let localPart := option_map toLowerCase (nth_error (split "@" email) 0) in
  if negb (truthy localPart) then false
  else
    match localPart with
    | Some localPart => existsb (role_match localPart) roleBasedPrefixes
    | None => false
    end.

(** The seven boolean signals ([validationResults]). *)
Record CheckSignals : Type := mkSignals {
  syntax : bool;
  domain : bool;
  mx : bool;
  disposable : bool;
  roleBased : bool;
  catchAll : bool;
  smtp : bool
}.

Module weights.
Definition syntax : float := 20%float.
Definition domain : float := 15%float.
Definition mx : float := 15%float.
Definition disposable : float := (-10)%float.
Definition roleBased : float := (-5)%float.
Definition catchAll : float := (-5)%float.
Definition smtp : float := 25%float.
End weights.

(** [calculateEmailScore]: the weights of the true signals are added up,
    the sum is scaled by 100 over the largest possible sum, cut to 0..100 and
    rounded; all of it in binary64 arithmetic, as in the source. *)
Definition calculateEmailScore (validationResults : CheckSignals) : number :=
  let score := 0%float in
  let score := if syntax validationResults then (score + weights.syntax)%float else score in
  let score := if domain validationResults then (score + weights.domain)%float else score in
  let score := if mx validationResults then (score + weights.mx)%float else score in
  let score := if disposable validationResults then (score + weights.disposable)%float else score in
  let score := if roleBased validationResults then (score + weights.roleBased)%float else score in
  let score := if catchAll validationResults then (score + weights.catchAll)%float else score in
  let score := if smtp validationResults then (score + weights.smtp)%float else score in
  let maxPossibleScore :=
    (weights.syntax + weights.domain + weights.mx + weights.smtp)%float in
  let normalizedScore :=
    Math_max 0%float (Math_min 100%float ((score / maxPossibleScore) * 100)%float) in
  Math_round normalizedScore.

Inductive Status : Type := valid | risky | invalid.

Definition getEmailStatus (score : number) : Status :=
  if number_geb score 75 then valid
  else if number_geb score 40 then risky
  else invalid.

(* ================================================================== *)
(** ** The engine: probes and orchestrator *)
(* ================================================================== *)

(** A call made by [validateEmail], recorded with its argument
    ([None] is [undefined]). *)
Inductive Call : Type :=
| CallValidateEmailSyntax (email : string)
| CallValidateDomain (email : string)
| CallSimulateMXCheck (domain : option string)
| CallIsDisposableEmail (email : string)
| CallIsRoleBasedEmail (email : string)
| CallSimulateCatchAllDetection (domain : option string)
| CallSimulateSMTPCheck (email : string)
| CallCalculateEmailScore (validationResults : CheckSignals)
| CallGetEmailStatus (score : number).

(** What a run has done so far: how many values [Math.random] has handed
    out, and the calls made, oldest first. *)
Record World : Type := mkWorld {
  draws : nat;
  calls : list Call
}.

(** A computation returns a value or throws. *)
Inductive outcome (A : Type) : Type :=
| Returned (a : A)
| Thrown (error : string).
Arguments Returned {A} a.
Arguments Thrown {A} error.

Definition M (A : Type) : Type := World -> outcome A * World.

Definition ret {A : Type} (a : A) : M A := fun w => (Returned a, w).

Definition bind {A B : Type} (m : M A) (k : A -> M B) : M B :=
  fun w =>
    match m w with
    | (Returned a, w') => k a w'
    | (Thrown e, w') => (Thrown e, w')
    end.

Definition throw {A : Type} (error : string) : M A :=
  fun w => (Thrown error, w).

(** Record the call, then run the callee. *)
Definition call {A : Type} (c : Call) (m : M A) : M A :=
  fun w => m (mkWorld (draws w) (calls w ++ [c])).

Declare Scope engine_scope.
Delimit Scope engine_scope with engine.
Notation "x <- m ;; k" := (bind m (fun x => k))
  (at level 61, m at next level, right associativity) : engine_scope.

(** The record [validateEmail] returns; [signals] holds the seven fields
    spread from [validationResults]. *)
Record ValidationResult : Type := mkResult {
  email : string;
  signals : CheckSignals;
  score : number;
  status : Status
}.

Definition commonDomains : list string :=
  ["gmail.com"; "yahoo.com"; "hotmail.com"; "outlook.com"; "aol.com";
   "icloud.com"; "protonmail.com"; "zoho.com"; "mail.com"; "gmx.com"].

Definition catchAllDomains : list string :=
  ["example.com"; "test.com"; "demo.com"].

Definition reliableProviders : list string :=
  ["gmail.com"; "yahoo.com"; "hotmail.com"; "outlook.com"; "aol.com";
   "icloud.com"; "protonmail.com"; "zoho.com"].

Section Engine.

Local Open Scope engine_scope.

(** [emailSchema.parse] of the zod library: [true] when it returns, [false]
    when it throws. *)
Variable emailSchema_parse : string -> bool.

(** The sequence of values [Math.random()] returns. *)
Variable random : nat -> float.

Definition Math_random : M float :=
  fun w => (Returned (random (draws w)), mkWorld (S (draws w)) (calls w)).

(** [validateEmailSyntax]: [try { emailSchema.parse(email); return true }
    catch { return false }]. *)
Definition validateEmailSyntax (email : string) : bool :=
  if emailSchema_parse email then true else false.

(** [domain.toLowerCase()] throws a TypeError on [undefined]. *)
Definition simulateMXCheck (domain : option string) : M bool :=
  match domain with
  | None => throw "TypeError"
  | Some domain =>
      if arr_includes commonDomains (toLowerCase domain) then ret true
      else r <- Math_random ;; ret (PrimFloat.ltb 0.15%float r)
  end.

Definition simulateCatchAllDetection (domain : option string) : M bool :=
  match domain with
  | None => throw "TypeError"
  | Some domain =>
      if arr_includes catchAllDomains (toLowerCase domain) then ret true
      else r <- Math_random ;; ret (PrimFloat.ltb r 0.2%float)
  end.

Definition simulateSMTPCheck (email : string) : M bool :=
  let domain := option_map toLowerCase (nth_error (split "@" email) 1) in
  if negb (truthy domain) then ret false
  else
    match domain with
    | Some domain =>
        if arr_includes reliableProviders domain
        then r <- Math_random ;; ret (PrimFloat.ltb 0.05%float r)
        else r <- Math_random ;; ret (PrimFloat.ltb 0.3%float r)
    | None => ret false
    end.

(** [validateEmail]: an [async] function without [await], so it runs to its
    end in one go; [Returned] is the promise fulfilled, [Thrown] the promise
    rejected. *)
Definition validateEmail (email : string) : M ValidationResult :=
  syntax <- call (CallValidateEmailSyntax email) (ret (validateEmailSyntax email)) ;;
  if negb syntax then
    ret (mkResult email
           (mkSignals false false false false false false false)
           (Num 0) invalid)
  else
    let domain := nth_error (split "@" email) 1 in
    domainValid <- call (CallValidateDomain email) (ret (validateDomain email)) ;;
    mx <- (if domainValid
           then call (CallSimulateMXCheck domain) (simulateMXCheck domain)
           else ret false) ;;
    disposable <- call (CallIsDisposableEmail email) (ret (isDisposableEmail email)) ;;
    roleBased <- call (CallIsRoleBasedEmail email) (ret (isRoleBasedEmail email)) ;;
    catchAll <- (if domainValid
                 then call (CallSimulateCatchAllDetection domain)
                        (simulateCatchAllDetection domain)
                 else ret false) ;;
    smtp <- (if mx && negb disposable
             then call (CallSimulateSMTPCheck email) (simulateSMTPCheck email)
             else ret false) ;;
    let validationResults :=
      mkSignals syntax domainValid mx disposable roleBased catchAll smtp in
    score <- call (CallCalculateEmailScore validationResults)
               (ret (calculateEmailScore validationResults)) ;;
    status <- call (CallGetEmailStatus score) (ret (getEmailStatus score)) ;;
    ret (mkResult email validationResults score status).

End Engine.

(** The state a call of [validateEmail] starts from. *)
Definition fresh : World := mkWorld 0 [].

(** Modelled from the spec: the zod schema [z.string().email()] behind
    [emailSchema] is a third-party library; section 4.1 of the specification
    gives the grammar the Syntax Checker accepts (a local part of one or more
    of the listed characters, one [@], dot-separated labels of 1 to 63
    characters), which is the grammar of [RFC5322_EMAIL_REGEX]. *)
Definition emailSchema_spec (email : string) : bool :=
  test RFC5322_EMAIL_REGEX email.

(* ================================================================== *)
(** ** The vocabulary of the specification *)
(* ================================================================== *)

(** The substring after the first [sep]; [None] when [s] has no [sep]. *)
Fixpoint afterFirst (sep : ascii) (s : string) : option string :=
  match s with
  | EmptyString => None
  | String c s' => if Ascii.eqb c sep then Some s' else afterFirst sep s'
  end.

(** The substring after the last [sep]; [None] when [s] has no [sep]. *)
Fixpoint afterLast (sep : ascii) (s : string) : option string :=
  match s with
  | EmptyString => None
  | String c s' =>
      match afterLast sep s' with
      | Some t => Some t
      | None => if Ascii.eqb c sep then Some s' else None
      end
  end.

(** The part of [s] before its first [sep], all of [s] when it has none. *)
Fixpoint upTo (sep : ascii) (s : string) : string :=
  match s with
  | EmptyString => EmptyString
  | String c s' => if Ascii.eqb c sep then EmptyString else String c (upTo sep s')
  end.

(** How many times [sep] occurs in [s]. *)
Fixpoint occurrences (sep : ascii) (s : string) : nat :=
  match s with
  | EmptyString => 0
  | String c s' => (if Ascii.eqb c sep then 1 else 0) + occurrences sep s'
  end.

Definition between (lo hi c : ascii) : bool :=
  ((N_of_ascii lo <=? N_of_ascii c) && (N_of_ascii c <=? N_of_ascii hi))%N.

Definition is_alpha (c : ascii) : bool := between "a" "z" c || between "A" "Z" c.
Definition is_digit (c : ascii) : bool := between "0" "9" c.
Definition is_alnum (c : ascii) : bool := is_alpha c || is_digit c.
Definition is_hyphen (c : ascii) : bool := Ascii.eqb c "-".

Fixpoint all_chars (p : ascii -> bool) (s : string) : bool :=
  match s with
  | EmptyString => true
  | String c s' => p c && all_chars p s'
  end.

Definition first_char (s : string) : option ascii :=
  match s with
  | EmptyString => None
  | String c _ => Some c
  end.

Fixpoint last_char (s : string) : option ascii :=
  match s with
  | EmptyString => None
  | String c EmptyString => Some c
  | String _ s' => last_char s'
  end.

Definition is_some_hyphen (c : option ascii) : bool :=
  match c with
  | Some c => is_hyphen c
  | None => false
  end.

(** The labels [ls], each with a dot before it, in one string. *)
Fixpoint dotted (ls : list string) : string :=
  match ls with
  | [] => EmptyString
  | l :: ls' => String "." (l ++ dotted ls')
  end.

(** A label: 1 to 63 characters, each alphanumeric or a hyphen, with no
    hyphen in first or last place. *)
Definition label_ok (l : string) : bool :=
  (1 <=? String.length l)%nat && (String.length l <=? 63)%nat
  && all_chars (fun c => is_alnum c || is_hyphen c) l
  && negb (is_some_hyphen (first_char l))
  && negb (is_some_hyphen (last_char l)).

(** A top-level label: at least two characters, all alphabetic. *)
Definition tld_ok (t : string) : bool :=
  (2 <=? String.length t)%nat && all_chars is_alpha t.

(** A domain: dot-separated labels, the last of them a top-level label. *)
Definition domain_ok (d : string) : bool :=
  forallb label_ok (split "." d) && tld_ok (last (split "." d) "").

(** The Domain Structural Checker as the specification words it: on the
    substring after the first [@]. *)
Definition validateDomain_after_first_at (email : string) : bool :=
  match afterFirst "@" email with
  | None => false
  | Some d => if String.eqb d "" then false else domain_ok d
  end.

(** What [validateDomain] checks: the segment after the first [@], which
    ends at the next [@] or at the end of the string. *)
Definition validateDomain_segment (email : string) : bool :=
  match afterFirst "@" email with
  | None => false
  | Some rest =>
      let d := upTo "@" rest in
      if String.eqb d "" then false else domain_ok d
  end.

(** Membership in a list of strings, letter case ignored. *)
Definition member_ignoring_case (l : list string) (x : string) : bool :=
  existsb (fun y => String.eqb (toLowerCase x) (toLowerCase y)) l.

(** The Disposable Provider Detector as the specification words it: on
    the substring after the last [@]. *)
Definition isDisposableEmail_after_last_at (email : string) : bool :=
  match afterLast "@" email with
  | None => false
  | Some d => member_ignoring_case disposableDomains d
  end.

(** What [isDisposableEmail] checks: the segment after the first [@]. *)
Definition isDisposableEmail_segment (email : string) : bool :=
  match afterFirst "@" email with
  | None => false
  | Some rest => member_ignoring_case disposableDomains (upTo "@" rest)
  end.

(** A local part counts as a role account for [prefix] when it is equal to
    it, or is it followed by [.] or [-] and anything. *)
Definition role_of (prefix localPart : string) : Prop :=
  localPart = prefix
  \/ (exists rest, localPart = prefix ++ "." ++ rest)
  \/ (exists rest, localPart = prefix ++ "-" ++ rest).

(** The raw sum of the weights of the signals that are true. *)
Definition weight_sum (r : CheckSignals) : Z :=
  ((if syntax r then 20 else 0) + (if domain r then 15 else 0)
   + (if mx r then 15 else 0) + (if disposable r then -10 else 0)
   + (if roleBased r then -5 else 0) + (if catchAll r then -5 else 0)
   + (if smtp r then 25 else 0))%Z.

Definition clamp (x lo hi : Z) : Z := Z.max lo (Z.min hi x).

(** Rounding to the nearest integer, a half going up. *)
Definition round (q : Q) : Z := Qfloor (q + (1 # 2))%Q.

(** [round(clamp(S, 0, 75) / 75 * 100)]. *)
Definition score_formula (r : CheckSignals) : Z :=
  round (inject_Z (clamp (weight_sum r) 0 75) / 75 * 100)%Q.

Definition all_false : CheckSignals :=
  mkSignals false false false false false false false.

(* ================================================================== *)
(** ** Runs of the orchestrator *)
(* ================================================================== *)

(** The signal records a run can end with: nothing is set when syntax
    fails, the probes are gated as in [validateEmail]. *)
Definition reachable (r : CheckSignals) : bool :=
  implb (negb (syntax r))
        (negb (domain r || mx r || disposable r || roleBased r
               || catchAll r || smtp r))
  && implb (mx r) (domain r)
  && implb (catchAll r) (domain r)
  && implb (smtp r) (mx r && negb (disposable r)).

(** The calls of a run whose syntax check passes, in the order of the
    statements of [validateEmail], read off the result of the run. *)
Definition calls_of_run (address : string) (r : ValidationResult) : list Call :=
  let d := nth_error (split "@" address) 1 in
  [CallValidateEmailSyntax address; CallValidateDomain address]
  ++ (if domain (signals r) then [CallSimulateMXCheck d] else [])
  ++ [CallIsDisposableEmail address; CallIsRoleBasedEmail address]
  ++ (if domain (signals r) then [CallSimulateCatchAllDetection d] else [])
  ++ (if mx (signals r) && negb (disposable (signals r))
      then [CallSimulateSMTPCheck address] else [])
  ++ [CallCalculateEmailScore (signals r); CallGetEmailStatus (score r)].

(* ================================================================== *)
(** ** More JavaScript primitives, for the pages *)
(* ================================================================== *)

From Stdlib Require DecimalString.

Module JSText.

(** [s.charAt(0)]: the first character as a string, [''] on [''] . *)
Definition charAt0 (s : string) : string :=
  match s with
  | EmptyString => EmptyString
  | String c _ => String c EmptyString
  end.

(** [s.slice(1)]. *)
Definition slice1 (s : string) : string :=
  match s with
  | EmptyString => EmptyString
  | String _ s' => s'
  end.

(** [s.replace(/^@/, '')]: one leading [@] is dropped. *)
Definition replace_leading_at (s : string) : string :=
  match s with
  | EmptyString => EmptyString
  | String c s' => if Ascii.eqb c "@" then s' else s
  end.

(** [s.replace(/c/g, '')] for a one-character pattern. *)
Fixpoint remove_all (c : ascii) (s : string) : string :=
  match s with
  | EmptyString => EmptyString
  | String x s' => if Ascii.eqb x c then remove_all c s' else String x (remove_all c s')
  end.

(** [s.includes(needle)] for a string needle. *)
Fixpoint includes_string (needle s : string) : bool :=
  startsWith needle s
  || match s with
     | EmptyString => false
     | String _ s' => includes_string needle s'
     end.

(** [arr.join(sep)]. *)
Fixpoint join (sep : string) (arr : list string) : string :=
  match arr with
  | [] => EmptyString
  | [x] => x
  | x :: rest => x ++ sep ++ join sep rest
  end.

(** White space and line terminators below 256: tab, line feed, vertical
    tab, form feed, carriage return, space, no-break space. *)
Definition is_space (c : ascii) : bool :=
  let n := N_of_ascii c in
  ((9 <=? n) && (n <=? 13) || (n =? 32) || (n =? 160))%N.

Fixpoint trimStart (s : string) : string :=
  match s with
  | EmptyString => EmptyString
  | String c s' => if is_space c then trimStart s' else s
  end.

Fixpoint trimEnd (s : string) : string :=
  match s with
  | EmptyString => EmptyString
  | String c s' =>
      match trimEnd s' with
      | EmptyString => if is_space c then EmptyString else String c EmptyString
      | t => String c t
      end
  end.

(** [s.trim()]. *)
Definition trim (s : string) : string := trimEnd (trimStart s).

(** Truthiness of a string. *)
Definition nonempty (s : string) : bool := negb (String.eqb s EmptyString).

(** [arr.findIndex(p)]; [None] is -1. *)
Fixpoint findIndex {A : Type} (p : A -> bool) (arr : list A) : option nat :=
  match arr with
  | [] => None
  | x :: rest => if p x then Some 0 else option_map S (findIndex p rest)
  end.

(** [arr.indexOf(x)] on strings; [None] is -1. *)
Definition indexOf (arr : list string) (x : string) : option nat :=
  findIndex (String.eqb x) arr.

(** [arr.filter((x, index) => p(x, index))], the indices counted from
    [start]. *)
Fixpoint filter_from {A : Type} (p : A -> nat -> bool) (start : nat)
    (arr : list A) : list A :=
  match arr with
  | [] => []
  | x :: rest =>
      if p x start then x :: filter_from p (S start) rest
      else filter_from p (S start) rest
  end.

Definition filter_indexed {A : Type} (p : A -> nat -> bool) (arr : list A) : list A :=
  filter_from p 0 arr.

Definition option_nat_eqb (a : option nat) (b : nat) : bool :=
  match a with
  | Some n => Nat.eqb n b
  | None => false
  end.

(** [String(x)] for a rounded number, as [join] and templates print it
    (the decimal digits of an integer below 10^21 in size). *)
Definition number_to_string (x : number) : string :=
  match x with
  | Num z => DecimalString.NilZero.string_of_int (Z.to_int z)
  | NaN => "NaN"
  | Infinity negative => if negative then "-Infinity" else "Infinity"
  end.

(** [c.toUpperCase()] on one ASCII character. *)
Definition toUpperCase_ascii (c : ascii) : ascii :=
  let n := N_of_ascii c in
  if ((97 <=? n) && (n <=? 122))%N then ascii_of_N (n - 32) else c.

End JSText.

Import JSText.

(* ================================================================== *)
(** ** The generator page (app/generate/page.tsx, [GeneratePage]) *)
(* ================================================================== *)

Module GeneratePage.

Record GeneratedEmail : Type := mkGenerated {
  email : string;
  pattern : string
}.

(** [generateEmails]: [None] when the form is incomplete (a toast, nothing
    generated), otherwise the list handed to [setGeneratedEmails]. *)
Definition generateEmails (firstName middleName lastName domain : string)
  : option (list GeneratedEmail) :=
  if negb (nonempty firstName) || negb (nonempty lastName) || negb (nonempty domain)
  then None
  else
    let f := toLowerCase firstName in
    let m := toLowerCase middleName in
    let l := toLowerCase lastName in
    let d := replace_leading_at (toLowerCase domain) in
    let patterns :=
      [ mkGenerated (f ++ "." ++ l ++ "@" ++ d) "firstname.lastname";
        mkGenerated (f ++ l ++ "@" ++ d) "firstnamelastname";
        mkGenerated (charAt0 f ++ "." ++ l ++ "@" ++ d) "f.lastname";
        mkGenerated (f ++ "." ++ charAt0 l ++ "@" ++ d) "firstname.l";
        mkGenerated (f ++ charAt0 l ++ "@" ++ d) "firstnamel";
        mkGenerated (charAt0 f ++ l ++ "@" ++ d) "flastname";
        mkGenerated (l ++ "." ++ f ++ "@" ++ d) "lastname.firstname";
        mkGenerated (l ++ f ++ "@" ++ d) "lastnamefirstname";
        mkGenerated (f ++ "_" ++ l ++ "@" ++ d) "firstname_lastname";
        mkGenerated (f ++ "-" ++ l ++ "@" ++ d) "firstname-lastname" ] in
    let patterns :=
      if nonempty m
      then (patterns ++
            [ mkGenerated (f ++ "." ++ m ++ "." ++ l ++ "@" ++ d)
                "firstname.middlename.lastname";
              mkGenerated (f ++ m ++ l ++ "@" ++ d) "firstnamemiddlenamelastname";
              mkGenerated (charAt0 f ++ "." ++ charAt0 m ++ "." ++ l ++ "@" ++ d)
                "f.m.lastname";
              mkGenerated (f ++ "." ++ charAt0 m ++ "." ++ l ++ "@" ++ d)
                "firstname.m.lastname" ])%list
      else patterns in
    Some patterns.

End GeneratePage.

(* ================================================================== *)
(** ** The single-address page (app/validate/page.tsx, [ValidatePage]) *)
(* ================================================================== *)

Module ValidatePage.

Definition Status_eqb (a b : Status) : bool :=
  match a, b with
  | valid, valid | risky, risky | invalid, invalid => true
  | _, _ => false
  end.

(** [getStatusDescription]: the page's result holds the engine's status
    and score, and the seven signals under [details] ([signals] here). *)
Definition getStatusDescription (result : ValidationResult) : string :=
  let details := signals result in
  if Status_eqb (status result) valid && number_geb (score result) 80 then
    "This email has a high probability of being deliverable and appears to be a real, active mailbox."
  else if Status_eqb (status result) valid && number_geb (score result) 60 then
    "This email appears to be valid but may have some minor concerns that could affect deliverability."
  else if Status_eqb (status result) risky then
    let reasons := [] in
    let reasons := if disposable details
                   then (reasons ++ ["disposable email provider"])%list else reasons in
    let reasons := if roleBased details
                   then (reasons ++ ["role-based address"])%list else reasons in
    let reasons := if catchAll details
                   then (reasons ++ ["catch-all domain"])%list else reasons in
    let reasons := if negb (smtp details)
                   then (reasons ++ ["mailbox verification failed"])%list else reasons in
    let reasonText :=
      if (0 <? List.length reasons)%nat
      then " (" ++ join ", " reasons ++ ")" else "" in
    "This email may be valid but has concerning characteristics" ++ reasonText ++ "."
  else if Status_eqb (status result) invalid then
    if negb (syntax details) then
      "This email has invalid syntax and cannot be delivered."
    else if negb (domain details) then
      "The domain for this email address does not exist."
    else if negb (mx details) then
      "The domain has no mail servers configured."
    else "This email is likely invalid or undeliverable."
  else "".

End ValidatePage.

(* ================================================================== *)
(** ** Vocabulary for the pages *)
(* ================================================================== *)

(** An address made of a non-empty local part in lower case, an [@] and
    the domain [d]; the local part holds no [@] when the three names hold
    none. *)
Definition generated_form (firstName middleName lastName d address : string) : Prop :=
  exists localPart,
    address = localPart ++ String "@" d
    /\ localPart <> ""
    /\ toLowerCase localPart = localPart
    /\ (includes "@" firstName = false -> includes "@" middleName = false ->
        includes "@" lastName = false -> includes "@" localPart = false).

(** A result as [validateEmail] gives it for its own address: the verdict
    of the syntax checker, the score of its signals, the status of its score,
    and signals that a run can end with. *)
Definition engine_result (emailSchema_parse : string -> bool)
    (r : ValidationResult) : Prop :=
  syntax (signals r) = validateEmailSyntax emailSchema_parse (email r)
  /\ score r = calculateEmailScore (signals r)
  /\ status r = getEmailStatus (score r)
  /\ reachable (signals r) = true.

(* ================================================================== *)
(** ** The bulk page (the page of [BulkValidatePage]) *)
(* ================================================================== *)

Module BulkPage.

Definition newline : ascii := "010".
Definition comma : ascii := ",".
Definition quote : ascii := "034".

(** What [processFile] ends with: one of the three error toasts, or the
    list of addresses stored in [uploadedFile]. *)
Inductive Upload : Type :=
| EmptyFile
| NoEmailColumn
| NoValidEmails
| Uploaded (emails : list string).

(** The test handed to [headers.findIndex]. *)
Definition is_email_header (h : string) : bool :=
  includes_string "email" h || includes_string "e-mail" h
  || includes_string "mail" h.

(** [.filter(email => email && email.includes('@'))] on values that may be
    [undefined]. *)
Fixpoint filter_addresses (values : list (option string)) : list string :=
  match values with
  | [] => []
  | Some v :: rest =>
      if nonempty v && includes "@" v then v :: filter_addresses rest
      else filter_addresses rest
  | None :: rest => filter_addresses rest
  end.

(** [.filter((email, index, self) => self.indexOf(email) === index)]. *)
Definition remove_duplicates (self : list string) : list string :=
  filter_indexed (fun v index => option_nat_eqb (indexOf self v) index) self.

(** [processFile], on the text the reader hands to [onload]. *)
Definition processFile (text : string) : Upload :=
  let lines := filter (fun line => nonempty (trim line)) (split newline text) in
  match lines with
  | [] => EmptyFile
  | first :: others =>
      let headers :=
        map (fun h => remove_all quote (toLowerCase (trim h))) (split comma first) in
      match findIndex is_email_header headers with
      | None => NoEmailColumn
      | Some emailColumnIndex =>
          let emails :=
            remove_duplicates
              (filter_addresses
                 (map (fun line =>
                         let columns := split comma line in
                         option_map (fun v => remove_all quote (trim v))
                           (nth_error columns emailColumnIndex))
                      others)) in
          match emails with
          | [] => NoValidEmails
          | _ => Uploaded emails
          end
      end
  end.

Definition status_name (s : Status) : string :=
  match s with
  | valid => "valid"
  | risky => "risky"
  | invalid => "invalid"
  end.

(** [s.charAt(0).toUpperCase() + s.slice(1)] on a status name. *)
Definition capitalized (s : string) : string :=
  match charAt0 s with
  | String c _ => String (toUpperCase_ascii c) EmptyString
  | EmptyString => EmptyString
  end ++ slice1 s.

Definition csv_headers : list string :=
  ["Email"; "Syntax"; "Domain"; "MX"; "Disposable"; "Role-based";
   "Catch-All"; "SMTP"; "Score"; "Status"].

(** One line of the download. *)
Definition csv_row (result : ValidationResult) : string :=
  join ","
    [ String quote (email result ++ String quote EmptyString);
      if syntax (signals result) then "Pass" else "Fail";
      if domain (signals result) then "Pass" else "Fail";
      if mx (signals result) then "Pass" else "Fail";
      if disposable (signals result) then "Yes" else "No";
      if roleBased (signals result) then "Yes" else "No";
      if catchAll (signals result) then "Yes" else "No";
      if smtp (signals result) then "Pass" else "Fail";
      number_to_string (score result);
      capitalized (status_name (status result)) ].

(** [downloadResults]: the text put in the downloaded file; [None] when
    there are no results and nothing is downloaded. *)
Definition downloadResults (results : list ValidationResult) : option string :=
  match results with
  | [] => None
  | _ =>
      let csvContent :=
        join (String newline EmptyString)
          (join "," csv_headers :: map csv_row results) in
      Some csvContent
  end.

(** A non-negative integer as a number. *)
Definition number_of_nat (n : nat) : float :=
  PrimFloat.of_uint63 (Uint63Axioms.of_Z (Z.of_nat n)).

(** The toast [validateEmails] ends with. *)
Inductive Toast : Type :=
| ValidationComplete (validCount riskyCount invalidCount : nat)
| ValidationError.

(** The page state [validateEmails] leaves and its toast. *)
Record BulkRun : Type := mkBulkRun {
  results : list ValidationResult;
  validationProgress : number;
  toast : Toast
}.

(** The record pushed when [validateEmail] throws. *)
Definition failed_result (address : string) : ValidationResult :=
  mkResult address (mkSignals false false false false false false false)
    (Num 0) invalid.

Section Bulk.

Variable emailSchema_parse : string -> bool.
Variable random : nat -> float.

(** [try { m } catch { h }]. *)
Definition try_catch {A : Type} (m : M A) (h : string -> M A) : M A :=
  fun w =>
    match m w with
    | (Returned a, w') => (Returned a, w')
    | (Thrown e, w') => h e w'
    end.

(** The [for] loop from index [i] on, [emails] being the addresses still
    to do: the results and the progress set so far, and the error that ended
    the loop if one did. *)
Fixpoint validate_loop (total i : nat) (emails : list string)
    (validationResults : list ValidationResult) (progress : number) (w : World)
  : (list ValidationResult * number * option string) * World :=
  match emails with
  | [] => ((validationResults, progress, None), w)
  | address :: rest =>
      match try_catch (validateEmail emailSchema_parse random address)
              (fun _ => ret (failed_result address)) w with
      | (Returned result, w') =>
          let validationResults := (validationResults ++ [result])%list in
          let progress :=
            Math_round ((number_of_nat (i + 1) / number_of_nat total) * 100)%float in
          validate_loop total (S i) rest validationResults progress w'
      | (Thrown e, w') => ((validationResults, progress, Some e), w')
      end
  end.

Definition count_status (s : Status) (l : list ValidationResult) : nat :=
  List.length (filter (fun r => ValidatePage.Status_eqb (status r) s) l).

(** [validateEmails]: [None] when no file is loaded. *)
Definition validateEmails (uploadedFile : option (list string)) (w : World)
  : option BulkRun * World :=
  match uploadedFile with
  | None => (None, w)
  | Some emails =>
      match validate_loop (List.length emails) 0 emails [] (Num 0) w with
      | ((validationResults, progress, None), w') =>
          (Some (mkBulkRun validationResults progress
                   (ValidationComplete
                      (count_status valid validationResults)
                      (count_status risky validationResults)
                      (count_status invalid validationResults))), w')
      | ((validationResults, progress, Some _), w') =>
          (Some (mkBulkRun validationResults progress ValidationError), w')
      end
  end.

End Bulk.

End BulkPage.

(* ================================================================== *)
(** ** Strings: append, length *)
(* ================================================================== *)

Section StringFacts.

Lemma append_empty_r (s : string) : s ++ "" = s.
Proof. induction s as [|c s IH]; simpl; [reflexivity | now rewrite IH]. Qed.

Lemma append_assoc (a b c : string) : (a ++ b) ++ c = a ++ (b ++ c).
Proof. induction a as [|x a IH]; simpl; [reflexivity | now rewrite IH]. Qed.

Lemma append_eq_empty (a b : string) : a ++ b = "" -> a = "" /\ b = "".
Proof. destruct a; simpl; intros H; [now split | discriminate]. Qed.

Lemma length_append (a b : string) :
  String.length (a ++ b) = String.length a + String.length b.
Proof. induction a as [|x a IH]; simpl; [reflexivity | now rewrite IH]. Qed.

Lemma length_zero_empty (s : string) : String.length s = 0 -> s = "".
Proof. destruct s; simpl; [reflexivity | discriminate]. Qed.

End StringFacts.

(* ================================================================== *)
(** ** Regular expressions: [test] decides the language *)
(* ================================================================== *)

Section RegexFacts.

Lemma nullable_lang (r : regex) : nullable r = true <-> lang r "".
Proof.
  induction r as [| |cls|r1 IH1 r2 IH2|r1 IH1 r2 IH2|r IH]; simpl.
  - split; [discriminate | tauto].
  - tauto.
  - split; [discriminate | intros (c & H & _); discriminate].
  - rewrite andb_true_iff, IH1, IH2. split.
    + intros [H1 H2]. exists "", "". auto.
    + intros (s1 & s2 & E & H1 & H2).
      symmetry in E. apply append_eq_empty in E as [-> ->]. auto.
  - rewrite orb_true_iff, IH1, IH2. tauto.
  - split; [intros _; constructor | reflexivity].
Qed.

(** A non-empty word of a starred language starts with a non-empty piece. *)
Lemma star_cons_inv (L : string -> Prop) (c : ascii) (s : string) :
  star L (String c s) ->
  exists s1 s2, s = s1 ++ s2 /\ L (String c s1) /\ star L s2.
Proof.
  intros H. remember (String c s) as w eqn:E.
  induction H as [|s1 s2 H1 H2 IH]; [discriminate|].
  destruct s1 as [|x s1]; simpl in E.
  - auto.
  - injection E as -> <-. exists s1, s2. auto.
Qed.

Lemma deriv_lang (c : ascii) (r : regex) :
  forall s, lang (deriv c r) s <-> lang r (String c s).
Proof.
  induction r as [| |cls|r1 IH1 r2 IH2|r1 IH1 r2 IH2|r IH]; intros s; simpl.
  - tauto.
  - split; [tauto | discriminate].
  - destruct (in_class cls c) eqn:Hc; simpl.
    + split.
      * intros ->. exists c. auto.
      * intros (x & E & _). now injection E.
    + split; [tauto|]. intros (x & E & Hx). injection E as -> _. congruence.
  - assert (Hcons : (exists s1 s2, s = s1 ++ s2 /\ lang (deriv c r1) s1 /\ lang r2 s2)
                    <-> (exists s1 s2, String c s = s1 ++ s2 /\ s1 <> "" /\
                                       lang r1 s1 /\ lang r2 s2)).
    { split.
      - intros (s1 & s2 & -> & H1 & H2). exists (String c s1), s2.
        rewrite <- IH1. repeat split; auto. discriminate.
      - intros (s1 & s2 & E & Hne & H1 & H2).
        destruct s1 as [|x s1]; [congruence|]. simpl in E. injection E as -> ->.
        exists s1, s2. rewrite IH1. auto. }
    destruct (nullable r1) eqn:Hn; simpl.
    + rewrite Hcons, IH2. split.
      * intros [(s1 & s2 & E & _ & H1 & H2) | H2]; [eauto|].
        exists "", (String c s). rewrite <- nullable_lang. auto.
      * intros (s1 & s2 & E & H1 & H2). destruct s1 as [|x s1].
        -- right. simpl in E. now rewrite E.
        -- left. exists (String x s1), s2. repeat split; auto. discriminate.
    + rewrite Hcons. split.
      * intros (s1 & s2 & E & _ & H1 & H2). eauto.
      * intros (s1 & s2 & E & H1 & H2). exists s1, s2. repeat split; auto.
        intros ->. apply nullable_lang in H1. congruence.
  - rewrite IH1, IH2. tauto.
  - split.
    + intros (s1 & s2 & -> & H1 & H2). apply IH in H1.
      change (String c (s1 ++ s2)) with (String c s1 ++ s2). now constructor.
    + intros H. apply star_cons_inv in H as (s1 & s2 & -> & H1 & H2).
      exists s1, s2. rewrite IH. auto.
Qed.

Theorem test_lang (r : regex) (s : string) : test r s = true <-> lang r s.
Proof.
  revert r. induction s as [|c s IH]; intros r; simpl.
  - apply nullable_lang.
  - rewrite IH. apply deriv_lang.
Qed.

End RegexFacts.

(* ================================================================== *)
(** ** Sample evaluations *)
(* ================================================================== *)

Example split_three : split "@" "a@b.com@c" = ["a"; "b.com"; "c"].
Proof. reflexivity. Qed.

Example split_empty : split "@" "" = [""].
Proof. reflexivity. Qed.

Example split_trailing : split "." "a.b." = ["a"; "b"; ""].
Proof. reflexivity. Qed.

Example toLowerCase_mixed : toLowerCase "Admin-Bot@X.com" = "admin-bot@x.com".
Proof. reflexivity. Qed.

Example validateDomain_samples :
  validateDomain "user@gmail.com" = true
  /\ validateDomain "user@sub-domain.example.org" = true
  /\ validateDomain "user@gmail.c" = false
  /\ validateDomain "user@gmail.c0m" = false
  /\ validateDomain "user@-gmail.com" = false
  /\ validateDomain "user@gmail-.com" = false
  /\ validateDomain "user@gmail..com" = false
  /\ validateDomain "user@" = false
  /\ validateDomain "user" = false.
Proof. repeat split; vm_compute; reflexivity. Qed.

Example Math_round_samples :
  Math_round 26.5%float = Num 27
  /\ Math_round 26.4%float = Num 26
  /\ Math_round (-0.5)%float = Num 0
  /\ Math_round (-1.5)%float = Num (-1)
  /\ Math_round 100%float = Num 100.
Proof. repeat split; vm_compute; reflexivity. Qed.

(** A reliable provider: both probes pass, two random numbers are drawn
    (catch-all, mailbox). *)
Example validateEmail_gmail :
  validateEmail emailSchema_spec (fun _ => 0.5%float) "user@gmail.com" fresh
  = (Returned (mkResult "user@gmail.com"
                 (mkSignals true true true false false false true)
                 (Num 100) valid),
     mkWorld 2
       [CallValidateEmailSyntax "user@gmail.com";
        CallValidateDomain "user@gmail.com";
        CallSimulateMXCheck (Some "gmail.com");
        CallIsDisposableEmail "user@gmail.com";
        CallIsRoleBasedEmail "user@gmail.com";
        CallSimulateCatchAllDetection (Some "gmail.com");
        CallSimulateSMTPCheck "user@gmail.com";
        CallCalculateEmailScore (mkSignals true true true false false false true);
        CallGetEmailStatus (Num 100)]).
Proof. vm_compute. reflexivity. Qed.

(** A disposable domain: the mailbox probe is not called, although with
    these draws it would have answered true. *)
Example validateEmail_mailinator :
  fst (validateEmail emailSchema_spec (fun _ => 0.5%float)
         "admin@mailinator.com" fresh)
  = Returned (mkResult "admin@mailinator.com"
                (mkSignals true true true true true false false)
                (Num 47) risky)
  /\ fst (simulateSMTPCheck (fun _ => 0.5%float) "admin@mailinator.com" fresh)
     = Returned true.
Proof. split; vm_compute; reflexivity. Qed.

(* ================================================================== *)
(** ** Scoring Engine and Status Classifier *)
(* ================================================================== *)

(** Case analysis on the seven signals, each goal settled by evaluation. *)
Ltac by_signals :=
  repeat match goal with
         | r : CheckSignals |- _ => destruct r
         | b : bool |- _ => destruct b
         end;
  vm_compute; repeat split.

(** The score of every record is an integer between 0 and 100. *)
Lemma calculateEmailScore_range (r : CheckSignals) :
  exists z, calculateEmailScore r = Num z /\ (0 <= z <= 100)%Z.
Proof.
  exists (score_formula r). split; [by_signals|].
  split; apply Z.leb_le; by_signals.
Qed.

(** C2: for every record of the seven signals the score is
    round(clamp(S, 0, 75) / 75 * 100), S being the sum of the weights of the
    signals that are true; syntax alone scores 27, and syntax, domain, mx and
    smtp without the three negative signals score 100. *)
Theorem C2_score_formula :
  (forall r : CheckSignals, calculateEmailScore r = Num (score_formula r))
  /\ calculateEmailScore (mkSignals true false false false false false false) = Num 27
  /\ calculateEmailScore (mkSignals true true true false false false true) = Num 100.
Proof.
  split; [|split]; [intros r; by_signals | reflexivity | reflexivity].
Qed.

(** C4: an integer score of 75 or more is valid, one from 40 to 74 is
    risky, one below 40 is invalid, and no score has two outcomes;
    75 is valid, 74 and 40 are risky, 39 is invalid. *)
Theorem C4_status_thresholds :
  (forall s : Z,
      (getEmailStatus (Num s) = valid <-> (75 <= s)%Z)
      /\ (getEmailStatus (Num s) = risky <-> (40 <= s < 75)%Z)
      /\ (getEmailStatus (Num s) = invalid <-> (s < 40)%Z))
  /\ getEmailStatus (Num 75) = valid
  /\ getEmailStatus (Num 74) = risky
  /\ getEmailStatus (Num 40) = risky
  /\ getEmailStatus (Num 39) = invalid.
Proof.
  split; [|repeat split].
  intros s. unfold getEmailStatus, number_geb.
  destruct (75 <=? s)%Z eqn:H75; [|destruct (40 <=? s)%Z eqn:H40];
    try apply Z.leb_le in H75; try apply Z.leb_gt in H75;
    try apply Z.leb_le in H40; try apply Z.leb_gt in H40;
    repeat split; intros; try discriminate; try lia.
Qed.

(** C10: raising syntax, domain, mx or smtp from false to true, the other
    six signals fixed, never lowers the score; raising disposable, roleBased
    or catchAll never raises it. *)
Theorem C10_score_monotone :
  forall a b c d e f : bool,
    number_leb (calculateEmailScore (mkSignals false a b c d e f))
               (calculateEmailScore (mkSignals true a b c d e f)) = true
    /\ number_leb (calculateEmailScore (mkSignals a false b c d e f))
                  (calculateEmailScore (mkSignals a true b c d e f)) = true
    /\ number_leb (calculateEmailScore (mkSignals a b false c d e f))
                  (calculateEmailScore (mkSignals a b true c d e f)) = true
    /\ number_leb (calculateEmailScore (mkSignals a b c d e f false))
                  (calculateEmailScore (mkSignals a b c d e f true)) = true
    /\ number_leb (calculateEmailScore (mkSignals a b c true d e f))
                  (calculateEmailScore (mkSignals a b c false d e f)) = true
    /\ number_leb (calculateEmailScore (mkSignals a b c d true e f))
                  (calculateEmailScore (mkSignals a b c d false e f)) = true
    /\ number_leb (calculateEmailScore (mkSignals a b c d e true f))
                  (calculateEmailScore (mkSignals a b c d e false f)) = true.
Proof.
  intros a b c d e f. by_signals.
Qed.

(* ================================================================== *)
(** ** [split], [startsWith], [toLowerCase] *)
(* ================================================================== *)

Section SplitFacts.

Variable sep : ascii.

Lemma split_nonempty (s : string) : split sep s <> [].
Proof.
  destruct s as [|c s]; simpl; [discriminate|].
  destruct (Ascii.eqb c sep); [discriminate|].
  destruct (split sep s); discriminate.
Qed.

(** The first segment is the text before the first separator. *)
Lemma split_first (s : string) : nth_error (split sep s) 0 = Some (upTo sep s).
Proof.
  induction s as [|c s IH]; simpl; [reflexivity|].
  destruct (Ascii.eqb c sep); [reflexivity|].
  destruct (split sep s) as [|seg rest]; simpl in *; congruence.
Qed.

(** The second segment is the text between the first separator and the
    next one; there is none when the string has no separator. *)
Lemma split_second (s : string) :
  nth_error (split sep s) 1 = option_map (upTo sep) (afterFirst sep s).
Proof.
  induction s as [|c s IH]; simpl; [reflexivity|].
  destruct (Ascii.eqb c sep); simpl.
  - apply split_first.
  - destruct (split sep s) as [|seg rest] eqn:E; simpl in *; [|exact IH].
    now apply split_nonempty in E.
Qed.

Lemma afterFirst_none (s : string) :
  afterFirst sep s = None <-> includes sep s = false.
Proof.
  induction s as [|c s IH]; simpl; [tauto|].
  destruct (Ascii.eqb c sep); [split; discriminate | exact IH].
Qed.

Lemma upTo_no_sep (s : string) : includes sep s = false -> upTo sep s = s.
Proof.
  induction s as [|c s IH]; simpl; [reflexivity|].
  destruct (Ascii.eqb c sep); [discriminate|]. intros H. now rewrite IH.
Qed.

Lemma split_no_sep (s : string) : includes sep s = false -> split sep s = [s].
Proof.
  induction s as [|c s IH]; simpl; [reflexivity|].
  destruct (Ascii.eqb c sep); [discriminate|]. intros H. now rewrite IH.
Qed.

Lemma includes_append (a b : string) :
  includes sep (a ++ b) = includes sep a || includes sep b.
Proof.
  induction a as [|c a IH]; simpl; [reflexivity|].
  destruct (Ascii.eqb c sep); [reflexivity | exact IH].
Qed.

Lemma upTo_has_no_sep (s : string) : includes sep (upTo sep s) = false.
Proof.
  induction s as [|c s IH]; simpl; [reflexivity|].
  destruct (Ascii.eqb c sep) eqn:E; simpl; [reflexivity|]. now rewrite E.
Qed.

End SplitFacts.

Section PrefixFacts.

Lemma startsWith_iff (p s : string) :
  startsWith p s = true <-> exists rest, s = p ++ rest.
Proof.
  revert s. induction p as [|a p IH]; intros s; simpl.
  - split; [exists s; reflexivity | reflexivity].
  - destruct s as [|b s].
    + split; [discriminate | intros (rest & E); discriminate].
    + rewrite andb_true_iff, IH. split.
      * intros (Hab & rest & ->). apply Ascii.eqb_eq in Hab as ->. now exists rest.
      * intros (rest & E). injection E as -> ->.
        split; [apply Ascii.eqb_refl | now exists rest].
Qed.

Lemma toLowerCase_append (a b : string) :
  toLowerCase (a ++ b) = toLowerCase a ++ toLowerCase b.
Proof. induction a as [|c a IH]; simpl; [reflexivity | now rewrite IH]. Qed.

Lemma role_match_iff (localPart prefix : string) :
  role_match localPart prefix = true <-> role_of prefix localPart.
Proof.
  unfold role_match, role_of.
  rewrite !orb_true_iff, String.eqb_eq, !startsWith_iff.
  setoid_rewrite append_assoc. tauto.
Qed.

(** The listed prefixes are non-empty and in lower case. *)
Lemma roleBasedPrefixes_lower (prefix : string) :
  In prefix roleBasedPrefixes -> prefix <> "" /\ toLowerCase prefix = prefix.
Proof.
  intros H.
  assert (A : forallb (fun p => negb (String.eqb p "")
                                && String.eqb (toLowerCase p) p)
                roleBasedPrefixes = true) by reflexivity.
  rewrite forallb_forall in A. specialize (A prefix H).
  apply andb_true_iff in A as [A1 A2].
  apply negb_true_iff, String.eqb_neq in A1. apply String.eqb_eq in A2. auto.
Qed.

Lemma role_of_nonempty (prefix localPart : string) :
  prefix <> "" -> role_of prefix localPart -> localPart <> "".
Proof.
  intros Hp [-> | [(rest & ->) | (rest & ->)]]; auto;
    destruct prefix; simpl; congruence.
Qed.

Lemma role_of_toLowerCase (prefix s : string) :
  toLowerCase prefix = prefix -> role_of prefix s ->
  role_of prefix (toLowerCase s).
Proof.
  intros Hp [-> | [(rest & ->) | (rest & ->)]].
  - left. exact Hp.
  - right; left. exists (toLowerCase rest).
    now rewrite !toLowerCase_append, Hp.
  - right; right. exists (toLowerCase rest).
    now rewrite !toLowerCase_append, Hp.
Qed.

(** [isRoleBasedEmail] holds exactly when the lower-cased text before the
    first [@] is a role account for one of the listed prefixes. *)
Lemma isRoleBasedEmail_iff (email : string) :
  isRoleBasedEmail email = true <->
  exists prefix, In prefix roleBasedPrefixes
                 /\ role_of prefix (toLowerCase (upTo "@" email)).
Proof.
  unfold isRoleBasedEmail. rewrite split_first. cbn [option_map truthy].
  set (lp := toLowerCase (upTo "@" email)).
  destruct (String.eqb lp "") eqn:E; cbn [negb].
  - apply String.eqb_eq in E. split; [discriminate|].
    intros (prefix & Hin & Hrole).
    apply roleBasedPrefixes_lower in Hin as [Hne _].
    now apply (role_of_nonempty _ _ Hne) in Hrole.
  - rewrite existsb_exists. split.
    + intros (prefix & Hin & Hm). exists prefix. now rewrite <- role_match_iff.
    + intros (prefix & Hin & Hm). exists prefix. now rewrite role_match_iff.
Qed.

End PrefixFacts.

(* ================================================================== *)
(** ** Role Account Detector *)
(* ================================================================== *)

(** C1, as stated, fails: [administrator] is itself a listed prefix, so
    the detector accepts [administrator@x.com]. *)
Lemma C1_administrator_is_listed :
  ~ (isRoleBasedEmail "admin@x.com" = true
     /\ isRoleBasedEmail "admin.team@x.com" = true
     /\ isRoleBasedEmail "admin-bot@x.com" = true
     /\ isRoleBasedEmail "administrator@x.com" = false).
Proof. intros (_ & _ & _ & H). vm_compute in H. discriminate. Qed.

(** C1, amended: the detector returns true for [admin@x.com],
    [admin.team@x.com] and [admin-bot@x.com], and also for
    [administrator@x.com], whose local part equals the listed prefix
    [administrator]; a lower-cased local part matches only when it equals a
    listed prefix or starts with one followed by [.] or [-], so that a bare
    extension such as [admins] or [administrators] does not match. *)
Theorem C1_role_detector :
  isRoleBasedEmail "admin@x.com" = true
  /\ isRoleBasedEmail "admin.team@x.com" = true
  /\ isRoleBasedEmail "admin-bot@x.com" = true
  /\ isRoleBasedEmail "administrator@x.com" = true
  /\ In "administrator" roleBasedPrefixes
  /\ isRoleBasedEmail "admins@x.com" = false
  /\ isRoleBasedEmail "administrators@x.com" = false
  /\ (forall email : string,
         isRoleBasedEmail email = true <->
         exists prefix, In prefix roleBasedPrefixes
                        /\ role_of prefix (toLowerCase (upTo "@" email))).
Proof.
  repeat split; try reflexivity; try apply isRoleBasedEmail_iff.
  simpl; auto.
Qed.

(** C9: a string without [@] is its own local part, so when it equals a
    listed prefix, or starts with one followed by [.] or [-], the detector
    returns true although the string is no email address. *)
Theorem C9_role_without_at (s prefix : string) :
  includes "@" s = false ->
  In prefix roleBasedPrefixes ->
  role_of prefix s ->
  nth_error (split "@" s) 0 = Some s /\ isRoleBasedEmail s = true.
Proof.
  intros Hat Hin Hrole. split.
  - now rewrite split_first, upTo_no_sep.
  - apply isRoleBasedEmail_iff. exists prefix. split; [exact Hin|].
    rewrite upTo_no_sep by exact Hat.
    apply role_of_toLowerCase; [|exact Hrole].
    now apply roleBasedPrefixes_lower.
Qed.

Lemma C9_role_without_at_witness :
  includes "@" "admin" = false
  /\ In "admin" roleBasedPrefixes
  /\ role_of "admin" "admin"
  /\ nth_error (split "@" "admin") 0 = Some "admin"
  /\ isRoleBasedEmail "admin" = true.
Proof.
  split; [reflexivity|]. split; [simpl; auto|]. split; [left; reflexivity|].
  apply (C9_role_without_at "admin" "admin");
    [reflexivity | simpl; auto | left; reflexivity].
Defined.

(* ================================================================== *)
(** ** The domain grammar *)
(* ================================================================== *)

Section CharFacts.

Lemma in_class_alnum (c : ascii) : in_class alnum c = is_alnum c.
Proof.
  unfold in_class, alnum, is_alnum, is_alpha, is_digit. simpl.
  fold (between "a" "z" c) (between "A" "Z" c) (between "0" "9" c).
  now rewrite orb_false_r, orb_assoc.
Qed.

Lemma in_class_alnum_hyphen (c : ascii) :
  in_class alnum_hyphen c = is_alnum c || is_hyphen c.
Proof.
  unfold in_class, alnum_hyphen, is_alnum, is_alpha, is_digit, is_hyphen. simpl.
  fold (between "a" "z" c) (between "A" "Z" c) (between "0" "9" c).
  now rewrite orb_false_r, !orb_assoc.
Qed.

Lemma in_class_alpha (c : ascii) : in_class alpha c = is_alpha c.
Proof.
  unfold in_class, alpha, is_alpha. simpl.
  fold (between "a" "z" c) (between "A" "Z" c).
  now rewrite orb_false_r.
Qed.

Lemma alnum_not_hyphen (c : ascii) : is_alnum c = true -> is_hyphen c = false.
Proof.
  intros H. destruct (is_hyphen c) eqn:E; [|reflexivity].
  apply Ascii.eqb_eq in E. subst c. discriminate H.
Qed.

Lemma label_char_not_dot (c : ascii) :
  is_alnum c || is_hyphen c = true -> Ascii.eqb c "." = false.
Proof.
  intros H. destruct (Ascii.eqb c ".") eqn:E; [|reflexivity].
  apply Ascii.eqb_eq in E. subst c. discriminate H.
Qed.

Lemma all_chars_append (p : ascii -> bool) (a b : string) :
  all_chars p (a ++ b) = all_chars p a && all_chars p b.
Proof.
  induction a as [|c a IH]; simpl; [reflexivity|].
  now rewrite IH, andb_assoc.
Qed.

Lemma all_chars_ext (p q : ascii -> bool) (s : string) :
  (forall c, p c = q c) -> all_chars p s = all_chars q s.
Proof.
  intros H. induction s as [|c s IH]; simpl; [reflexivity|].
  now rewrite H, IH.
Qed.

Lemma last_char_snoc (s : string) (e : ascii) :
  last_char (s ++ String e "") = Some e.
Proof.
  induction s as [|c s IH]; simpl; [reflexivity|].
  destruct (s ++ String e "") eqn:E; [|exact IH].
  destruct s; discriminate.
Qed.

Lemma string_snoc (s : string) :
  s <> "" -> exists m e, s = m ++ String e "".
Proof.
  induction s as [|c s IH]; [congruence|]. intros _.
  destruct s as [|c' s'].
  - exists "", c. reflexivity.
  - destruct IH as (m & e & E); [discriminate|].
    exists (String c m), e. simpl. now rewrite <- E.
Qed.

End CharFacts.

Section GrammarFacts.

Lemma lang_Cls_one (cls : list item) (c : ascii) :
  lang (Cls cls) (String c "") <-> in_class cls c = true.
Proof.
  simpl. split.
  - intros (x & E & H). now injection E as ->.
  - intros H. now exists c.
Qed.

(** [[...]{0,n}]: at most [n] characters, all of the class. *)
Lemma lang_Upto_class (cls : list item) (n : nat) :
  forall s, lang (Upto n (Cls cls)) s <->
            String.length s <= n /\ all_chars (in_class cls) s = true.
Proof.
  induction n as [|n IH]; intros s.
  - simpl. split.
    + intros ->. auto.
    + intros [H _]. apply length_zero_empty. lia.
  - change (Upto (S n) (Cls cls)) with (Alt (Seq (Cls cls) (Upto n (Cls cls))) Eps).
    cbn [lang]. split.
    + intros [(s1 & s2 & -> & (c & -> & Hc) & H2) | ->]; [|simpl; split; [lia | reflexivity]].
      apply IH in H2 as [Hlen Hall]. simpl. rewrite Hc, Hall. split; [lia | reflexivity].
    + intros [Hlen Hall]. destruct s as [|c s]; [now right | left].
      simpl in Hlen, Hall. apply andb_true_iff in Hall as [Hc Hall].
      exists (String c ""), s. split; [reflexivity|]. split.
      * now exists c.
      * apply IH. split; [lia | exact Hall].
Qed.

(** [[...]*]: any number of characters, all of the class. *)
Lemma star_class (cls : list item) (s : string) :
  star (lang (Cls cls)) s <-> all_chars (in_class cls) s = true.
Proof.
  split.
  - intros H. induction H as [|s1 s2 (c & -> & Hc) _ IH]; [reflexivity|].
    simpl. now rewrite Hc, IH.
  - induction s as [|c s IH]; simpl; [constructor|].
    intros H. apply andb_true_iff in H as [Hc Hall].
    change (String c s) with (String c "" ++ s). constructor; [|auto].
    now exists c.
Qed.

(** [[...]+]: one character or more, all of the class. *)
Lemma lang_Plus_class (cls : list item) (s : string) :
  lang (Plus (Cls cls)) s <->
  s <> "" /\ all_chars (in_class cls) s = true.
Proof.
  unfold Plus. cbn [lang]. split.
  - intros (s1 & s2 & -> & (c & -> & Hc) & H2). apply star_class in H2.
    simpl. rewrite Hc, H2. split; [discriminate | reflexivity].
  - intros [Hne Hall]. destruct s as [|c s]; [congruence|].
    simpl in Hall. apply andb_true_iff in Hall as [Hc Hall].
    exists (String c ""), s. split; [reflexivity|].
    split; [now exists c | now apply star_class].
Qed.

(** The label of the two anchored literals is the label of the
    specification. *)
Lemma label_lang (l : string) : lang label l <-> label_ok l = true.
Proof.
  unfold label, Opt, label_ok. cbn [lang].
  rewrite !andb_true_iff, !negb_true_iff, Nat.leb_le, Nat.leb_le. split.
  - intros (s1 & s2 & -> & (c & -> & Hc) & Hrest).
    rewrite in_class_alnum in Hc. pose proof (alnum_not_hyphen c Hc) as Hnh.
    destruct Hrest as [(m & t & -> & Hm & (e & -> & He)) | ->].
    + apply lang_Upto_class in Hm as [Hlen Hall].
      rewrite in_class_alnum in He.
      rewrite (all_chars_ext _ _ _ in_class_alnum_hyphen) in Hall.
      cbn [append first_char is_some_hyphen all_chars String.length].
      rewrite length_append, all_chars_append, Hc, Hall. cbn [all_chars String.length].
      rewrite He. repeat split; try lia; auto.
      change (String c (m ++ String e "")) with (String c m ++ String e "").
      rewrite last_char_snoc. simpl. now apply alnum_not_hyphen.
    + simpl. rewrite Hc. repeat split; auto; lia.
  - intros [[[[Hlo Hhi] Hall] Hfirst] Hlast].
    destruct l as [|c rest]; [simpl in Hlo; lia|].
    simpl in Hfirst, Hall, Hhi. apply andb_true_iff in Hall as [Hc Hall].
    rewrite Hfirst, orb_false_r in Hc.
    exists (String c ""), rest. split; [reflexivity|].
    split; [exists c; now rewrite in_class_alnum|].
    destruct rest as [|c' rest']; [now right | left].
    destruct (string_snoc (String c' rest')) as (m & e & E); [discriminate|].
    rewrite E in *.
    change (String c (m ++ String e "")) with (String c m ++ String e "") in Hlast.
    rewrite last_char_snoc in Hlast. simpl in Hlast.
    rewrite all_chars_append in Hall. apply andb_true_iff in Hall as [Hm He].
    simpl in He. rewrite Hlast, !orb_false_r, andb_true_r in He.
    rewrite length_append in Hhi. simpl in Hhi.
    exists m, (String e ""). split; [reflexivity|]. split.
    + apply lang_Upto_class. split; [lia|].
      now rewrite (all_chars_ext _ _ _ in_class_alnum_hyphen).
    + exists e. now rewrite in_class_alnum.
Qed.

Lemma label_ok_no_dot (l : string) : label_ok l = true -> includes "." l = false.
Proof.
  unfold label_ok. rewrite !andb_true_iff. intros [[[_ Hall] _] _].
  induction l as [|c l IH]; simpl in *; [reflexivity|].
  apply andb_true_iff in Hall as [Hc Hall].
  rewrite (label_char_not_dot c Hc). auto.
Qed.

End GrammarFacts.

Section DomainFacts.

Lemma split_append_sep (sep : ascii) (a b : string) :
  includes sep a = false ->
  split sep (a ++ String sep b) = a :: split sep b.
Proof.
  induction a as [|c a IH]; simpl.
  - intros _. now rewrite Ascii.eqb_refl.
  - destruct (Ascii.eqb c sep); [discriminate|]. intros H. now rewrite IH.
Qed.

(** Splitting a head label and dotted labels gives the labels back, when
    none of them holds a dot. *)
Lemma split_dotted (ls : list string) :
  forall l0,
    includes "." l0 = false ->
    Forall (fun l => includes "." l = false) ls ->
    split "." (l0 ++ dotted ls) = l0 :: ls.
Proof.
  induction ls as [|l ls IH]; intros l0 H0 Hls; simpl.
  - rewrite append_empty_r. now apply split_no_sep.
  - inversion Hls as [|? ? Hl Hls']; subst.
    rewrite split_append_sep by exact H0. now rewrite IH.
Qed.

(** Every string is its first segment followed by the others, dotted. *)
Lemma dotted_split (d : string) :
  exists l0 ls, split "." d = l0 :: ls /\ d = l0 ++ dotted ls.
Proof.
  induction d as [|c d (l0 & ls & E & Hd)]; simpl.
  - exists "", []. auto.
  - destruct (Ascii.eqb c ".") eqn:Hc.
    + apply Ascii.eqb_eq in Hc as ->.
      exists "", (l0 :: ls). rewrite E. simpl. now rewrite <- Hd.
    + rewrite E. exists (String c l0), ls. simpl. now rewrite <- Hd.
Qed.

(** [(\.label)*]: dotted labels. *)
Lemma star_dot_label (t : string) :
  star (lang (Seq (Cls [Single "."]) label)) t <->
  exists ls, t = dotted ls /\ forallb label_ok ls = true.
Proof.
  split.
  - intros H. induction H as [|s1 s2 H1 _ (ls & -> & Hls)].
    + exists []. auto.
    + cbn [lang] in H1. destruct H1 as (a & l & -> & (c & -> & Hc) & Hl).
      cbn in Hc. rewrite orb_false_r in Hc. apply Ascii.eqb_eq in Hc as ->.
      apply label_lang in Hl. exists (l :: ls). simpl.
      rewrite Hl, Hls. auto.
  - intros (ls & -> & Hls). induction ls as [|l ls IH]; simpl; [constructor|].
    simpl in Hls. apply andb_true_iff in Hls as [Hl Hls].
    change (String "." (l ++ dotted ls)) with ((String "." l) ++ dotted ls).
    constructor; [|auto].
    exists (String "." ""), l. split; [reflexivity|]. split.
    + now exists "."%char.
    + now apply label_lang.
Qed.

(** [label(\.label)*] accepts a string exactly when each of its
    dot-separated segments is a label. *)
Lemma labels_lang (d : string) :
  lang labels d <-> forallb label_ok (split "." d) = true.
Proof.
  unfold labels. cbn [lang]. split.
  - intros (l0 & t & -> & H0 & Ht).
    apply label_lang in H0. apply star_dot_label in Ht as (ls & -> & Hls).
    rewrite split_dotted.
    + simpl. now rewrite H0, Hls.
    + now apply label_ok_no_dot.
    + rewrite forallb_forall in Hls. apply Forall_forall.
      intros l Hl. apply label_ok_no_dot. auto.
  - intros H. destruct (dotted_split d) as (l0 & ls & E & Hd).
    rewrite E in H. simpl in H. apply andb_true_iff in H as [H0 Hls].
    exists l0, (dotted ls). split; [exact Hd|]. split.
    + now apply label_lang.
    + apply star_dot_label. now exists ls.
Qed.

Lemma test_domainRegex (d : string) :
  test domainRegex d = forallb label_ok (split "." d).
Proof.
  apply eq_true_iff_eq. unfold domainRegex. rewrite test_lang. apply labels_lang.
Qed.

Lemma test_tldRegex (t : string) :
  (2 <=? String.length t)%nat && test tldRegex t = tld_ok t.
Proof.
  unfold tld_ok. destruct (2 <=? String.length t)%nat eqn:Hlen; [|reflexivity].
  simpl. apply eq_true_iff_eq. unfold tldRegex.
  rewrite test_lang, lang_Plus_class, (all_chars_ext _ _ _ in_class_alpha).
  split; [tauto|]. intros H. split; [|exact H].
  intros ->. discriminate Hlen.
Qed.

(** [validateDomain] checks the segment after the first [@] against the
    domain grammar of the specification. *)
Lemma validateDomain_is_segment (email : string) :
  validateDomain email = validateDomain_segment email.
Proof.
  unfold validateDomain, validateDomain_segment.
  rewrite split_second.
  destruct (afterFirst "@" email) as [rest|] eqn:E; simpl.
  - destruct (includes "@" email) eqn:Hat.
    + simpl. destruct (String.eqb (upTo "@" rest) ""); [reflexivity|].
      unfold domain_ok, last_segment.
      rewrite test_domainRegex.
      destruct (forallb label_ok (split "." (upTo "@" rest))); simpl;
        [apply test_tldRegex | reflexivity].
    + apply afterFirst_none in Hat. congruence.
  - now destruct (negb (includes "@" email)).
Qed.

End DomainFacts.

(* ================================================================== *)
(** ** Strings with at most one separator *)
(* ================================================================== *)

Section OneSeparator.

Variable sep : ascii.

Lemma occurrences_zero (s : string) :
  occurrences sep s = 0 -> includes sep s = false.
Proof.
  induction s as [|c s IH]; simpl; [reflexivity|].
  destruct (Ascii.eqb c sep); [discriminate | exact IH].
Qed.

Lemma occurrences_afterFirst (s rest : string) :
  afterFirst sep s = Some rest ->
  occurrences sep s = S (occurrences sep rest).
Proof.
  induction s as [|c s IH]; simpl; [discriminate|].
  destruct (Ascii.eqb c sep); [now intros [= ->] | exact IH].
Qed.

(** With one separator at most, the segment after the first separator is
    all that follows it. *)
Lemma upTo_afterFirst_single (s rest : string) :
  occurrences sep s <= 1 -> afterFirst sep s = Some rest ->
  upTo sep rest = rest.
Proof.
  intros H E. apply occurrences_afterFirst in E.
  apply upTo_no_sep, occurrences_zero. lia.
Qed.

Lemma afterLast_none (s : string) :
  occurrences sep s = 0 -> afterLast sep s = None.
Proof.
  induction s as [|c s IH]; simpl; [reflexivity|].
  destruct (Ascii.eqb c sep); [discriminate|]. intros H. now rewrite IH.
Qed.

(** With one separator at most, first and last separator are the same. *)
Lemma afterLast_single (s : string) :
  occurrences sep s <= 1 -> afterLast sep s = afterFirst sep s.
Proof.
  induction s as [|c s IH]; simpl; [reflexivity|].
  destruct (Ascii.eqb c sep); simpl; intros H.
  - rewrite afterLast_none; [reflexivity | lia].
  - rewrite IH by exact H. now destruct (afterFirst sep s).
Qed.

End OneSeparator.

(* ================================================================== *)
(** ** Domain Structural Checker and Syntax Checker *)
(* ================================================================== *)

(** C7, as stated, fails: the checker reads the domain up to the second
    [@], so it accepts [a@b.com@c], where what follows the first [@],
    [b.com@c], is no domain. *)
Lemma C7_second_at_ends_domain :
  validateDomain "a@b.com@c" = true
  /\ afterFirst "@" "a@b.com@c" = Some "b.com@c"
  /\ validateDomain_after_first_at "a@b.com@c" = false.
Proof. repeat split; vm_compute; reflexivity. Qed.

(** C7, amended: for every string the checker validates the segment after
    the first [@], which ends at the next [@] or at the end of the string (and
    is all that follows the [@] when the string has only one); it returns
    false when the string has no [@] or the segment is empty, and otherwise
    true exactly when the segment is made of dot-separated labels of 1 to 63
    alphanumeric or hyphen characters without a leading or trailing hyphen,
    the last of them of two or more characters, all alphabetic. *)
Theorem C7_domain_checker :
  (forall email : string,
      validateDomain email =
      match afterFirst "@" email with
      | None => false
      | Some rest =>
          let d := upTo "@" rest in
          if String.eqb d "" then false
          else forallb label_ok (split "." d) && tld_ok (last (split "." d) "")
      end)
  /\ (forall email : string,
         includes "@" email = false -> validateDomain email = false)
  /\ (forall email : string,
         occurrences "@" email <= 1 ->
         validateDomain email = validateDomain_after_first_at email).
Proof.
  split; [exact validateDomain_is_segment|]. split.
  - intros email H. rewrite validateDomain_is_segment.
    unfold validateDomain_segment.
    apply afterFirst_none in H. now rewrite H.
  - intros email H. rewrite validateDomain_is_segment.
    unfold validateDomain_segment, validateDomain_after_first_at.
    destruct (afterFirst "@" email) as [rest|] eqn:E; [|reflexivity].
    cbv zeta. now rewrite (upTo_afterFirst_single _ _ _ H E).
Qed.

Lemma C7_domain_checker_witness :
  occurrences "@" "user@gmail.com" <= 1
  /\ includes "@" "gmail.com" = false
  /\ validateDomain "user@gmail.com" = validateDomain_after_first_at "user@gmail.com"
  /\ validateDomain "gmail.com" = false.
Proof.
  split; [vm_compute; lia|]. split; [reflexivity|]. split.
  - apply (proj2 (proj2 C7_domain_checker)). vm_compute; lia.
  - apply (proj1 (proj2 C7_domain_checker)). reflexivity.
Defined.

(** A string the spec's email grammar accepts holds an [@]. *)
Lemma emailSchema_spec_has_at (s : string) :
  emailSchema_spec s = true -> includes "@" s = true.
Proof.
  unfold emailSchema_spec, RFC5322_EMAIL_REGEX. rewrite test_lang. cbn [lang].
  intros (s1 & s2 & -> & _ & (a & t & -> & (c & -> & Hc) & _)).
  cbn in Hc. rewrite orb_false_r in Hc. apply Ascii.eqb_eq in Hc as ->.
  rewrite includes_append. simpl. apply orb_true_r.
Qed.

(** C8: on every string without [@] the Syntax Checker returns false and
    the Domain Structural Checker returns false. *)
Theorem C8_no_at_sign (s : string) :
  includes "@" s = false ->
  validateEmailSyntax emailSchema_spec s = false /\ validateDomain s = false.
Proof.
  intros H. split.
  - unfold validateEmailSyntax.
    destruct (emailSchema_spec s) eqn:E; [|reflexivity].
    apply emailSchema_spec_has_at in E. congruence.
  - unfold validateDomain. now rewrite H.
Qed.

Lemma C8_no_at_sign_witness :
  includes "@" "no-at-sign" = false
  /\ validateEmailSyntax emailSchema_spec "no-at-sign" = false
  /\ validateDomain "no-at-sign" = false.
Proof.
  split; [reflexivity|]. apply (C8_no_at_sign "no-at-sign"). reflexivity.
Defined.

(* ================================================================== *)
(** ** Disposable Provider Detector *)
(* ================================================================== *)

Section DisposableFacts.

(** On a list in lower case, looking up the lower-cased string is
    membership without regard to case. *)
Lemma arr_includes_lower (l : list string) (x : string) :
  (forall y, In y l -> toLowerCase y = y) ->
  arr_includes l (toLowerCase x) = member_ignoring_case l x.
Proof.
  unfold arr_includes, member_ignoring_case.
  induction l as [|y l IH]; simpl; [reflexivity|]. intros H.
  rewrite (H y) by now left. rewrite IH; [reflexivity|].
  intros z Hz. apply H. now right.
Qed.

Lemma disposableDomains_lower (y : string) :
  In y disposableDomains -> toLowerCase y = y.
Proof.
  intros H.
  assert (A : forallb (fun d => String.eqb (toLowerCase d) d)
                disposableDomains = true) by reflexivity.
  rewrite forallb_forall in A. now apply String.eqb_eq, A.
Qed.

(** [isDisposableEmail] looks the segment after the first [@] up in the
    deny-list. *)
Lemma isDisposableEmail_is_segment (email : string) :
  isDisposableEmail email = isDisposableEmail_segment email.
Proof.
  unfold isDisposableEmail, isDisposableEmail_segment.
  rewrite split_second.
  destruct (afterFirst "@" email) as [rest|]; [|reflexivity].
  cbn [option_map truthy].
  rewrite <- (arr_includes_lower _ _ disposableDomains_lower).
  destruct (String.eqb (toLowerCase (upTo "@" rest)) "") eqn:E; cbn [negb].
  - apply String.eqb_eq in E. rewrite E. reflexivity.
  - reflexivity.
Qed.

End DisposableFacts.

(** C6, as stated, fails: the detector reads the domain after the first
    [@], not the last, so on [a@b@mailinator.com] it looks up [b] and returns
    false, although what follows the last [@] is on the deny-list. *)
Lemma C6_domain_is_not_after_last_at :
  isDisposableEmail "a@b@mailinator.com" = false
  /\ afterLast "@" "a@b@mailinator.com" = Some "mailinator.com"
  /\ isDisposableEmail_after_last_at "a@b@mailinator.com" = true.
Proof. repeat split; vm_compute; reflexivity. Qed.

(** C6, amended: for every string the detector takes as domain the segment
    after the first [@], which ends at the next [@] or at the end of the
    string (the substring after the last [@] when the string has only one),
    lower-cases it, and returns true exactly when it is, case ignored, on the
    deny-list; it returns false when the string has no [@];
    [user@mailinator.com] gives true and [user@gmail.com] false. *)
Theorem C6_disposable_detector :
  (forall email : string,
      isDisposableEmail email =
      match afterFirst "@" email with
      | None => false
      | Some rest => member_ignoring_case disposableDomains (upTo "@" rest)
      end)
  /\ (forall email : string,
         includes "@" email = false -> isDisposableEmail email = false)
  /\ (forall email : string,
         occurrences "@" email <= 1 ->
         isDisposableEmail email = isDisposableEmail_after_last_at email)
  /\ isDisposableEmail "user@mailinator.com" = true
  /\ isDisposableEmail "user@gmail.com" = false.
Proof.
  split; [exact isDisposableEmail_is_segment|].
  split; [|split; [|split; reflexivity]].
  - intros email H. rewrite isDisposableEmail_is_segment.
    unfold isDisposableEmail_segment.
    apply afterFirst_none in H. now rewrite H.
  - intros email H. rewrite isDisposableEmail_is_segment.
    unfold isDisposableEmail_segment, isDisposableEmail_after_last_at.
    rewrite (afterLast_single _ _ H).
    destruct (afterFirst "@" email) as [rest|] eqn:E; [|reflexivity].
    now rewrite (upTo_afterFirst_single _ _ _ H E).
Qed.

Lemma C6_disposable_detector_witness :
  occurrences "@" "user@mailinator.com" <= 1
  /\ includes "@" "mailinator.com" = false
  /\ isDisposableEmail "user@mailinator.com"
     = isDisposableEmail_after_last_at "user@mailinator.com"
  /\ isDisposableEmail "mailinator.com" = false.
Proof.
  split; [vm_compute; lia|]. split; [reflexivity|]. split.
  - apply (proj1 (proj2 (proj2 C6_disposable_detector))). vm_compute; lia.
  - apply (proj1 (proj2 C6_disposable_detector)). reflexivity.
Defined.

(* ================================================================== *)
(** ** Orchestrator *)
(* ================================================================== *)

Section OrchestratorFacts.

Variable emailSchema_parse : string -> bool.
Variable random : nat -> float.

Lemma validateDomain_has_segment (email : string) :
  validateDomain email = true ->
  exists d, nth_error (split "@" email) 1 = Some d.
Proof.
  unfold validateDomain.
  destruct (negb (includes "@" email)); [discriminate|].
  destruct (nth_error (split "@" email) 1) as [d|]; [|discriminate].
  intros _. now exists d.
Qed.

(** Each probe returns some boolean once it is handed a string. *)
Lemma simulateMXCheck_returns (d : string) (w : World) :
  exists b w', simulateMXCheck random (Some d) w = (Returned b, w').
Proof.
  unfold simulateMXCheck, bind, ret, Math_random.
  destruct (arr_includes commonDomains (toLowerCase d)); eauto.
Qed.

Lemma simulateCatchAllDetection_returns (d : string) (w : World) :
  exists b w', simulateCatchAllDetection random (Some d) w = (Returned b, w').
Proof.
  unfold simulateCatchAllDetection, bind, ret, Math_random.
  destruct (arr_includes catchAllDomains (toLowerCase d)); eauto.
Qed.

Lemma simulateSMTPCheck_returns (email : string) (w : World) :
  exists b w', simulateSMTPCheck random email w = (Returned b, w').
Proof.
  unfold simulateSMTPCheck, bind, ret, Math_random.
  destruct (negb (truthy _)); eauto.
  destruct (option_map toLowerCase _) as [d|]; eauto.
  destruct (arr_includes reliableProviders d); eauto.
Qed.

(** A run whose syntax check passes: it returns, with the signals of the
    four pure checks and some outcome for each probe, a probe that is not run
    counting as false. *)
Lemma validateEmail_passes (email : string) (w : World) :
  emailSchema_parse email = true ->
  exists (mxv cav smv : bool) (w' : World),
    let sig := mkSignals true (validateDomain email) mxv
                 (isDisposableEmail email) (isRoleBasedEmail email) cav smv in
    validateEmail emailSchema_parse random email w
    = (Returned (mkResult email sig (calculateEmailScore sig)
                   (getEmailStatus (calculateEmailScore sig))), w')
    /\ (validateDomain email = false -> mxv = false /\ cav = false)
    /\ (mxv && negb (isDisposableEmail email) = false -> smv = false).
Proof.
  intros Hs. unfold validateEmail, validateEmailSyntax. rewrite Hs.
  unfold bind at 1. unfold call at 1. unfold ret at 1. cbn [negb].
  unfold bind at 1. unfold call at 1. unfold ret at 1.
  destruct (validateDomain email) eqn:Hd.
  - destruct (validateDomain_has_segment _ Hd) as (d & ->).
    unfold bind at 1, call at 1.
    match goal with
    | |- context [simulateMXCheck random (Some d) ?w0] =>
        destruct (simulateMXCheck_returns d w0) as (mxv & w1 & ->)
    end.
    unfold bind at 1, call at 1, ret at 1.
    unfold bind at 1, call at 1, ret at 1.
    unfold bind at 1, call at 1.
    match goal with
    | |- context [simulateCatchAllDetection random (Some d) ?w0] =>
        destruct (simulateCatchAllDetection_returns d w0) as (cav & w2 & ->)
    end.
    unfold bind at 1.
    destruct (mxv && negb (isDisposableEmail email)) eqn:Hg.
    + unfold call at 1.
      match goal with
      | |- context [simulateSMTPCheck random email ?w0] =>
          destruct (simulateSMTPCheck_returns email w0) as (smv & w3 & ->)
      end.
      exists mxv, cav, smv. eexists. split; [reflexivity|].
      split; intros; congruence.
    + exists mxv, cav, false. eexists. split; [reflexivity|].
      split; [discriminate | reflexivity].
  - unfold bind at 1, ret at 1.
    unfold bind at 1, call at 1, ret at 1.
    unfold bind at 1, call at 1, ret at 1.
    unfold bind at 1, ret at 1. cbn [andb].
    exists false, false, false. eexists. split; [reflexivity|].
    split; auto.
Qed.

End OrchestratorFacts.

(** C3: whatever the syntax checker, the random draws and the input,
    [validateEmail] returns a result in which smtp implies mx and not
    disposable, and mx or catchAll implies domain; so with mx false or
    disposable true, smtp is false whatever the mailbox probe would say. *)
Theorem C3_gating_invariant
    (emailSchema_parse : string -> bool) (random : nat -> float)
    (email : string) (w : World) :
  exists (r : ValidationResult) (w' : World),
    validateEmail emailSchema_parse random email w = (Returned r, w')
    /\ (smtp (signals r) = true ->
        mx (signals r) = true /\ disposable (signals r) = false)
    /\ (mx (signals r) = true \/ catchAll (signals r) = true ->
        domain (signals r) = true)
    /\ (mx (signals r) = false \/ disposable (signals r) = true ->
        smtp (signals r) = false).
Proof.
  destruct (emailSchema_parse email) eqn:Hs.
  - destruct (validateEmail_passes emailSchema_parse random email w Hs)
      as (mxv & cav & smv & w' & Hrun & Hdom & Hsmtp).
    cbv zeta in Hrun. eexists. exists w'. split; [exact Hrun|].
    cbn [signals smtp mx disposable catchAll domain].
    destruct (validateDomain email), (isDisposableEmail email), mxv, cav, smv;
      cbn [andb negb] in Hsmtp; clear Hrun; intuition congruence.
  - eexists. eexists. split.
    + unfold validateEmail, validateEmailSyntax, bind, call, ret.
      rewrite Hs. reflexivity.
    + cbn. repeat split; intros; try tauto; try discriminate.
Qed.

(** C5: when the syntax checker returns false, [validateEmail] returns,
    without throwing, the result with all seven signals false, score 0 and
    status invalid, having called nothing but the syntax checker and drawn no
    random number; the spec's syntax checker returns false on the empty
    string, on [no-at-sign] and on [@@double.com]. *)
Theorem C5_syntax_short_circuit :
  (forall (emailSchema_parse : string -> bool) (random : nat -> float)
          (email : string) (w : World),
      validateEmailSyntax emailSchema_parse email = false ->
      validateEmail emailSchema_parse random email w
      = (Returned (mkResult email all_false (Num 0) invalid),
         mkWorld (draws w) (calls w ++ [CallValidateEmailSyntax email])))
  /\ validateEmailSyntax emailSchema_spec "" = false
  /\ validateEmailSyntax emailSchema_spec "no-at-sign" = false
  /\ validateEmailSyntax emailSchema_spec "@@double.com" = false.
Proof.
  split; [|repeat split; vm_compute; reflexivity].
  intros emailSchema_parse random email w Hs.
  unfold validateEmail, bind, call, ret. now rewrite Hs.
Qed.

Lemma C5_syntax_short_circuit_witness :
  validateEmailSyntax emailSchema_spec "@@double.com" = false
  /\ validateEmail emailSchema_spec (fun _ => 0.5%float) "@@double.com" fresh
     = (Returned (mkResult "@@double.com" all_false (Num 0) invalid),
        mkWorld 0 [CallValidateEmailSyntax "@@double.com"]).
Proof.
  split; [vm_compute; reflexivity|].
  apply (proj1 C5_syntax_short_circuit emailSchema_spec (fun _ => 0.5%float)
           "@@double.com" fresh).
  vm_compute; reflexivity.
Defined.

(* ================================================================== *)
(** ** Runs of the orchestrator: calls, draws, verdicts *)
(* ================================================================== *)

Ltac split_ands := repeat match goal with |- _ /\ _ => split end.

Section RunFacts.

Variable emailSchema_parse : string -> bool.
Variable random : nat -> float.

(** The MX probe draws one number at most and records no call; on a
    common domain it answers true without drawing. *)
Lemma simulateMXCheck_run (d : string) (w : World) :
  exists (b : bool) (w' : World),
    simulateMXCheck random (Some d) w = (Returned b, w')
    /\ calls w' = calls w
    /\ draws w <= draws w' <= draws w + 1
    /\ (arr_includes commonDomains (toLowerCase d) = true ->
        b = true /\ draws w' = draws w).
Proof.
  unfold simulateMXCheck, bind, ret, Math_random.
  destruct (arr_includes commonDomains (toLowerCase d)).
  - exists true, w. repeat split; auto; lia.
  - eexists; eexists. split; [reflexivity|]. simpl.
    repeat split; try lia; discriminate.
Qed.

Lemma simulateCatchAllDetection_run (d : string) (w : World) :
  exists (b : bool) (w' : World),
    simulateCatchAllDetection random (Some d) w = (Returned b, w')
    /\ calls w' = calls w
    /\ draws w <= draws w' <= draws w + 1
    /\ (arr_includes catchAllDomains (toLowerCase d) = true ->
        b = true /\ draws w' = draws w).
Proof.
  unfold simulateCatchAllDetection, bind, ret, Math_random.
  destruct (arr_includes catchAllDomains (toLowerCase d)).
  - exists true, w. repeat split; auto; lia.
  - eexists; eexists. split; [reflexivity|]. simpl.
    repeat split; try lia; discriminate.
Qed.

Lemma simulateSMTPCheck_run (address : string) (w : World) :
  exists (b : bool) (w' : World),
    simulateSMTPCheck random address w = (Returned b, w')
    /\ calls w' = calls w
    /\ draws w <= draws w' <= draws w + 1.
Proof.
  unfold simulateSMTPCheck, bind, ret, Math_random.
  destruct (negb (truthy _)); [exists false, w; repeat split; lia|].
  destruct (option_map toLowerCase _) as [d|];
    [|exists false, w; repeat split; lia].
  destruct (arr_includes reliableProviders d);
    (eexists; eexists; split; [reflexivity|]; simpl; repeat split; lia).
Qed.

(** A run whose syntax check passes, in full: the result, the calls it
    adds and the numbers it draws. *)
Lemma validateEmail_run (address : string) (w : World) :
  emailSchema_parse address = true ->
  exists (r : ValidationResult) (w' : World),
    validateEmail emailSchema_parse random address w = (Returned r, w')
    /\ email r = address
    /\ syntax (signals r) = true
    /\ domain (signals r) = validateDomain address
    /\ disposable (signals r) = isDisposableEmail address
    /\ roleBased (signals r) = isRoleBasedEmail address
    /\ score r = calculateEmailScore (signals r)
    /\ status r = getEmailStatus (score r)
    /\ reachable (signals r) = true
    /\ calls w' = (calls w ++ calls_of_run address r)%list
    /\ draws w <= draws w' <= draws w + 3
    /\ (forall d, nth_error (split "@" address) 1 = Some d ->
                  validateDomain address = true ->
                  (arr_includes commonDomains (toLowerCase d) = true ->
                   mx (signals r) = true)
                  /\ (arr_includes catchAllDomains (toLowerCase d) = true ->
                      catchAll (signals r) = true)).
Proof.
  intros Hs. unfold validateEmail, validateEmailSyntax. rewrite Hs.
  unfold bind at 1. unfold call at 1. unfold ret at 1. cbn [negb].
  unfold bind at 1. unfold call at 1. unfold ret at 1.
  unfold calls_of_run.
  destruct (validateDomain address) eqn:Hd.
  - destruct (validateDomain_has_segment _ Hd) as (d & Hseg). rewrite Hseg.
    unfold bind at 1, call at 1.
    match goal with
    | |- context [simulateMXCheck random (Some d) ?w0] =>
        destruct (simulateMXCheck_run d w0) as (mxv & w1 & -> & Hc1 & Hd1 & Hk1)
    end.
    unfold bind at 1, call at 1, ret at 1.
    unfold bind at 1, call at 1, ret at 1.
    unfold bind at 1, call at 1.
    match goal with
    | |- context [simulateCatchAllDetection random (Some d) ?w0] =>
        destruct (simulateCatchAllDetection_run d w0)
          as (cav & w2 & -> & Hc2 & Hd2 & Hk2)
    end.
    unfold bind at 1.
    cbn [draws calls] in *.
    destruct (mxv && negb (isDisposableEmail address)) eqn:Hg.
    + unfold call at 1.
      match goal with
      | |- context [simulateSMTPCheck random address ?w0] =>
          destruct (simulateSMTPCheck_run address w0)
            as (smv & w3 & -> & Hc3 & Hd3)
      end.
      cbn [draws calls] in *.
      eexists; eexists. split; [reflexivity|].
      cbn [email signals score status syntax domain mx disposable roleBased
           catchAll smtp calls draws].
      split_ands; try reflexivity; try lia.
      * unfold reachable.
        cbn [syntax domain mx disposable roleBased catchAll smtp].
        rewrite Hg. destruct mxv, cav, smv; reflexivity.
      * rewrite Hg, Hc3, Hc2, Hc1. rewrite <- !app_assoc; reflexivity.
      * intros d0 E _. injection E as <-.
        split; intros H; [now apply Hk1 | now apply Hk2].
    + eexists; eexists. split; [reflexivity|].
      cbn [email signals score status syntax domain mx disposable roleBased
           catchAll smtp calls draws].
      split_ands; try reflexivity; try lia.
      * unfold reachable.
        cbn [syntax domain mx disposable roleBased catchAll smtp].
        destruct mxv, cav; reflexivity.
      * rewrite Hg, Hc2, Hc1. rewrite <- !app_assoc; reflexivity.
      * intros d0 E _. injection E as <-.
        split; intros H; [now apply Hk1 | now apply Hk2].
  - unfold bind at 1, ret at 1.
    unfold bind at 1, call at 1, ret at 1.
    unfold bind at 1, call at 1, ret at 1.
    unfold bind at 1, ret at 1. cbn [andb].
    eexists; eexists. split; [reflexivity|].
    cbn [email signals score status syntax domain mx disposable roleBased
         catchAll smtp calls draws andb].
    split_ands; try reflexivity; try lia.
    rewrite <- !app_assoc; reflexivity.
Qed.

End RunFacts.

(* ================================================================== *)
(** ** Letter case *)
(* ================================================================== *)

(** Case analysis on the 256 characters, each goal settled by evaluation. *)
Ltac by_ascii c :=
  destruct c as [[] [] [] [] [] [] [] []]; vm_compute; reflexivity.

Section CaseFacts.

Lemma toLowerCase_ascii_idempotent (c : ascii) :
  toLowerCase_ascii (toLowerCase_ascii c) = toLowerCase_ascii c.
Proof. by_ascii c. Qed.

Lemma toLowerCase_ascii_at (c : ascii) :
  Ascii.eqb (toLowerCase_ascii c) "@" = Ascii.eqb c "@".
Proof. by_ascii c. Qed.





Lemma toLowerCase_idempotent (s : string) :
  toLowerCase (toLowerCase s) = toLowerCase s.
Proof.
  induction s as [|c s IH]; simpl; [reflexivity|].
  now rewrite toLowerCase_ascii_idempotent, IH.
Qed.



(** Lower-casing goes through [split] when it leaves the separator
    alone. *)
Lemma split_toLowerCase (sep : ascii) (s : string) :
  (forall c, Ascii.eqb (toLowerCase_ascii c) sep = Ascii.eqb c sep) ->
  split sep (toLowerCase s) = map toLowerCase (split sep s).
Proof.
  intros Hsep. induction s as [|c s IH]; simpl; [reflexivity|].
  rewrite Hsep. destruct (Ascii.eqb c sep); simpl; [now rewrite IH|].
  rewrite IH. now destruct (split sep s).
Qed.

Lemma includes_toLowerCase (sep : ascii) (s : string) :
  (forall c, Ascii.eqb (toLowerCase_ascii c) sep = Ascii.eqb c sep) ->
  includes sep (toLowerCase s) = includes sep s.
Proof.
  intros Hsep. induction s as [|c s IH]; simpl; [reflexivity|].
  rewrite Hsep. now destruct (Ascii.eqb c sep).
Qed.

Lemma nth_error_map_toLowerCase (l : list string) (n : nat) :
  nth_error (map toLowerCase l) n = option_map toLowerCase (nth_error l n).
Proof. apply nth_error_map. Qed.









End CaseFacts.


(** X8: [isDisposableEmail] does not see the case of letters: an address
    and its lower-cased form get the same answer. *)
Theorem isDisposableEmail_ignores_case (address : string) :
  isDisposableEmail (toLowerCase address) = isDisposableEmail address.
Proof.
  unfold isDisposableEmail.
  rewrite (split_toLowerCase _ _ toLowerCase_ascii_at), nth_error_map_toLowerCase.
  destruct (nth_error (split "@" address) 1) as [d|]; [|reflexivity].
  cbn [option_map]. now rewrite toLowerCase_idempotent.
Qed.

(** X9: [isRoleBasedEmail] does not see the case of letters: an address
    and its lower-cased form get the same answer. *)
Theorem isRoleBasedEmail_ignores_case (address : string) :
  isRoleBasedEmail (toLowerCase address) = isRoleBasedEmail address.
Proof.
  unfold isRoleBasedEmail.
  rewrite (split_toLowerCase _ _ toLowerCase_ascii_at), nth_error_map_toLowerCase.
  destruct (nth_error (split "@" address) 0) as [d|]; [|reflexivity].
  cbn [option_map]. now rewrite toLowerCase_idempotent.
Qed.

(* ================================================================== *)
(** ** Verdicts of the engine *)
(* ================================================================== *)

(** X1: whatever the signals, the score is an integer from 0 to 100. *)
Theorem score_between_0_and_100 (r : CheckSignals) :
  exists z, calculateEmailScore r = Num z /\ (0 <= z <= 100)%Z.
Proof. apply calculateEmailScore_range. Qed.

(** X2: whatever the signals, a score of 75 or more needs syntax and smtp and
    one of domain and mx, and is then 80 at least: no record scores from 75
    to 79. *)
Theorem valid_needs_syntax_and_smtp (r : CheckSignals) :
  getEmailStatus (calculateEmailScore r) = valid ->
  syntax r = true /\ smtp r = true /\ (domain r = true \/ mx r = true)
  /\ number_geb (calculateEmailScore r) 80 = true.
Proof.
  destruct r as [a b c d e f g].
  destruct a, b, c, d, e, f, g; vm_compute; intros H;
    try discriminate H; repeat split; auto.
Qed.

Lemma valid_needs_syntax_and_smtp_witness :
  getEmailStatus
    (calculateEmailScore (mkSignals true false true false false false true)) = valid
  /\ number_geb
       (calculateEmailScore (mkSignals true false true false false false true)) 80
     = true.
Proof.
  split; [vm_compute; reflexivity|].
  apply (valid_needs_syntax_and_smtp
           (mkSignals true false true false false false true)).
  vm_compute; reflexivity.
Defined.

Section VerdictFacts.

(** What the verdict of a reachable record of signals tells. *)
Lemma reachable_verdicts (r : CheckSignals) :
  reachable r = true ->
  (getEmailStatus (calculateEmailScore r) = valid ->
   syntax r = true /\ domain r = true /\ mx r = true /\ smtp r = true
   /\ disposable r = false)
  /\ (domain r = false -> getEmailStatus (calculateEmailScore r) = invalid)
  /\ (smtp r = false -> getEmailStatus (calculateEmailScore r) <> valid).
Proof.
  destruct r as [a b c d e f g].
  destruct a, b, c, d, e, f, g; vm_compute; intros H;
    try discriminate H; repeat split; intros; auto; discriminate.
Qed.

Variable emailSchema_parse : string -> bool.
Variable random : nat -> float.

(** Every run, whether the syntax check passes or not. *)
Lemma validateEmail_result (address : string) (w : World) :
  exists (r : ValidationResult) (w' : World),
    validateEmail emailSchema_parse random address w = (Returned r, w')
    /\ email r = address
    /\ syntax (signals r) = validateEmailSyntax emailSchema_parse address
    /\ score r = calculateEmailScore (signals r)
    /\ status r = getEmailStatus (score r)
    /\ reachable (signals r) = true
    /\ calls w' = (calls w ++
                   if emailSchema_parse address then calls_of_run address r
                   else [CallValidateEmailSyntax address])%list
    /\ draws w <= draws w' <= draws w + 3.
Proof.
  unfold validateEmailSyntax.
  destruct (emailSchema_parse address) eqn:Hs.
  - destruct (validateEmail_run emailSchema_parse random address w Hs)
      as (r & w' & Hrun & He & Hsy & _ & _ & _ & Hsc & Hst & Hre & Hc & Hd & _).
    exists r, w'. split_ands; auto; lia.
  - eexists; eexists. split.
    + unfold validateEmail, validateEmailSyntax, bind, call, ret.
      rewrite Hs. reflexivity.
    + cbn [email signals score status syntax calls draws].
      split_ands; try reflexivity; lia.
Qed.

End VerdictFacts.

(** X3: the result of a run is consistent: it carries the address it was
    given, the verdict of the syntax checker, the score of its own signals
    and the status of its own score; the literal result of the short circuit
    is the one scoring would give. *)
Theorem validateEmail_result_consistent
    (emailSchema_parse : string -> bool) (random : nat -> float)
    (address : string) (w : World) :
  exists (r : ValidationResult) (w' : World),
    validateEmail emailSchema_parse random address w = (Returned r, w')
    /\ email r = address
    /\ syntax (signals r) = validateEmailSyntax emailSchema_parse address
    /\ score r = calculateEmailScore (signals r)
    /\ status r = getEmailStatus (calculateEmailScore (signals r))
    /\ exists z, score r = Num z /\ (0 <= z <= 100)%Z.
Proof.
  destruct (validateEmail_result emailSchema_parse random address w)
    as (r & w' & Hrun & He & Hsy & Hsc & Hst & _).
  exists r, w'. split; [exact Hrun|]. split; [exact He|].
  split; [exact Hsy|]. split; [exact Hsc|]. split.
  - now rewrite Hst, Hsc.
  - rewrite Hsc. apply calculateEmailScore_range.
Qed.

(** X4: the calls of a run come in the order of the source: syntax alone when
    it fails; otherwise domain, the MX probe (only when the domain is valid),
    disposable, role, the catch-all probe (only when the domain is valid), the
    mailbox probe (only when mx holds and disposable does not), scoring and
    status. A run draws three random numbers at most. *)
Theorem validateEmail_call_order
    (emailSchema_parse : string -> bool) (random : nat -> float)
    (address : string) (w : World) :
  exists (r : ValidationResult) (w' : World),
    validateEmail emailSchema_parse random address w = (Returned r, w')
    /\ calls w' = (calls w ++
                   if emailSchema_parse address then calls_of_run address r
                   else [CallValidateEmailSyntax address])%list
    /\ draws w <= draws w' <= draws w + 3.
Proof.
  destruct (validateEmail_result emailSchema_parse random address w)
    as (r & w' & Hrun & _ & _ & _ & _ & _ & Hc & Hd).
  exists r, w'. auto.
Qed.

(** X5: a result is valid only with syntax, domain, mx and smtp all true and
    disposable false; it is invalid whenever the domain check fails; it is
    never valid without smtp, so never for a disposable address. *)
Theorem validateEmail_verdicts
    (emailSchema_parse : string -> bool) (random : nat -> float)
    (address : string) (w : World) :
  exists (r : ValidationResult) (w' : World),
    validateEmail emailSchema_parse random address w = (Returned r, w')
    /\ (status r = valid ->
        syntax (signals r) = true /\ domain (signals r) = true
        /\ mx (signals r) = true /\ smtp (signals r) = true
        /\ disposable (signals r) = false)
    /\ (domain (signals r) = false -> status r = invalid)
    /\ (disposable (signals r) = true -> status r <> valid).
Proof.
  destruct (validateEmail_result emailSchema_parse random address w)
    as (r & w' & Hrun & _ & _ & Hsc & Hst & Hre & _).
  exists r, w'. split; [exact Hrun|].
  rewrite Hst, Hsc.
  destruct (reachable_verdicts _ Hre) as (Hv & Hi & Hn).
  split; [exact Hv|]. split; [exact Hi|].
  intros Hdisp Hval. apply Hv in Hval. destruct Hval as (_ & _ & _ & _ & Hd).
  congruence.
Qed.

(* ================================================================== *)
(** ** Probes on the listed domains *)
(* ================================================================== *)

Section ListedDomains.



End ListedDomains.



(* ================================================================== *)
(** ** The exported email pattern *)
(* ================================================================== *)

Section PatternFacts.

Lemma all_chars_excludes (p : ascii -> bool) (sep : ascii) (s : string) :
  p sep = false -> all_chars p s = true -> includes sep s = false.
Proof.
  intros Hp. induction s as [|c s IH]; simpl; [reflexivity|].
  intros H. apply andb_true_iff in H as [Hc Hs].
  destruct (Ascii.eqb c sep) eqn:E; [|auto].
  apply Ascii.eqb_eq in E. congruence.
Qed.

(** When every segment is made of characters of [p], the string is made
    of characters of [p] and separators. *)
Lemma segments_chars (p : ascii -> bool) (sep : ascii) (s : string) :
  forallb (all_chars p) (split sep s) = true ->
  all_chars (fun c => p c || Ascii.eqb c sep) s = true.
Proof.
  induction s as [|c s IH]; simpl; [reflexivity|].
  destruct (Ascii.eqb c sep) eqn:E; simpl.
  - intros H. rewrite orb_true_r. auto.
  - destruct (split sep s) as [|seg rest] eqn:Es;
      [now apply split_nonempty in Es|].
    simpl in *. intros H. apply andb_true_iff in H as [H Hrest].
    apply andb_true_iff in H as [Hc Hseg].
    rewrite Hc. simpl. apply IH. now rewrite Hseg, Hrest.
Qed.

Lemma label_ok_chars (l : string) :
  label_ok l = true -> all_chars (fun c => is_alnum c || is_hyphen c) l = true.
Proof.
  unfold label_ok. rewrite !andb_true_iff. tauto.
Qed.

(** A string made of labels holds no [@] and is not empty. *)
Lemma labels_no_at (d : string) :
  forallb label_ok (split "." d) = true ->
  includes "@" d = false /\ d <> "".
Proof.
  intros H. split.
  - apply (all_chars_excludes
             (fun c => (is_alnum c || is_hyphen c) || Ascii.eqb c ".")).
    + reflexivity.
    + apply segments_chars. rewrite forallb_forall in *.
      intros l Hl. apply label_ok_chars. auto.
  - intros ->. discriminate H.
Qed.

Lemma afterFirst_append (sep : ascii) (a b : string) :
  includes sep a = false -> afterFirst sep (a ++ String sep b) = Some b.
Proof.
  induction a as [|c a IH]; simpl.
  - now rewrite Ascii.eqb_refl.
  - destruct (Ascii.eqb c sep); [discriminate | exact IH].
Qed.

Lemma occurrences_append (sep : ascii) (a b : string) :
  occurrences sep (a ++ b) = occurrences sep a + occurrences sep b.
Proof.
  induction a as [|c a IH]; simpl; [reflexivity|]. rewrite IH. lia.
Qed.

Lemma occurrences_none (sep : ascii) (s : string) :
  includes sep s = false -> occurrences sep s = 0.
Proof.
  induction s as [|c s IH]; simpl; [reflexivity|].
  destruct (Ascii.eqb c sep); [discriminate | exact IH].
Qed.

(** What [RFC5322_EMAIL_REGEX] accepts. *)
Lemma RFC5322_EMAIL_REGEX_lang (s : string) :
  lang RFC5322_EMAIL_REGEX s <->
  exists localPart d,
    s = localPart ++ String "@" d
    /\ localPart <> ""
    /\ all_chars (in_class local_chars) localPart = true
    /\ forallb label_ok (split "." d) = true.
Proof.
  unfold RFC5322_EMAIL_REGEX.
  change (lang (Seq (Plus (Cls local_chars)) (Seq (Cls [Single "@"]) labels)) s)
    with (exists s1 s2, s = s1 ++ s2 /\ lang (Plus (Cls local_chars)) s1
                        /\ exists a d, s2 = a ++ d /\ lang (Cls [Single "@"]) a
                                       /\ lang labels d).
  split.
  - intros (s1 & s2 & -> & H1 & a & d & -> & (c & -> & Hc) & Hd).
    cbn in Hc. rewrite orb_false_r in Hc. apply Ascii.eqb_eq in Hc as ->.
    apply lang_Plus_class in H1 as [Hne Hall]. apply labels_lang in Hd.
    exists s1, d. auto.
  - intros (lp & d & -> & Hne & Hall & Hd).
    exists lp, (String "@" d). split; [reflexivity|]. split.
    + now apply lang_Plus_class.
    + exists (String "@" ""), d. split; [reflexivity|]. split.
      * now exists "@"%char.
      * now apply labels_lang.
Qed.

End PatternFacts.

(** X10: [RFC5322_EMAIL_REGEX] accepts exactly the strings made of a non-empty
    local part of the listed characters, one [@], and dot-separated labels;
    such a string holds a single [@]. *)
Theorem RFC5322_EMAIL_REGEX_accepts (s : string) :
  test RFC5322_EMAIL_REGEX s = true <->
  exists localPart d,
    s = localPart ++ String "@" d
    /\ localPart <> ""
    /\ all_chars (in_class local_chars) localPart = true
    /\ forallb label_ok (split "." d) = true
    /\ occurrences "@" s = 1.
Proof.
  rewrite test_lang, RFC5322_EMAIL_REGEX_lang. split.
  - intros (lp & d & -> & Hne & Hall & Hd). exists lp, d. split_ands; auto.
    rewrite occurrences_append. simpl.
    rewrite (occurrences_none "@" lp), (occurrences_none "@" d); auto.
    + now apply labels_no_at.
    + now apply (all_chars_excludes (in_class local_chars)).
  - intros (lp & d & E & Hne & Hall & Hd & _). exists lp, d. auto.
Qed.

(** X11: on a string that [RFC5322_EMAIL_REGEX] accepts, [validateDomain] adds
    one requirement only: the last label has two letters or more and nothing
    but letters. *)
Theorem validateDomain_on_RFC5322 (s : string) :
  test RFC5322_EMAIL_REGEX s = true ->
  exists d, afterFirst "@" s = Some d
            /\ validateDomain s = tld_ok (last (split "." d) "").
Proof.
  rewrite test_lang, RFC5322_EMAIL_REGEX_lang.
  intros (lp & d & -> & Hne & Hall & Hd). exists d.
  assert (Hlp : includes "@" lp = false)
    by now apply (all_chars_excludes (in_class local_chars)).
  destruct (labels_no_at d Hd) as [Hat Hde].
  split; [now apply afterFirst_append|].
  rewrite validateDomain_is_segment. unfold validateDomain_segment.
  rewrite afterFirst_append by exact Hlp. cbv zeta.
  rewrite upTo_no_sep by exact Hat.
  apply String.eqb_neq in Hde. rewrite Hde. unfold domain_ok. now rewrite Hd.
Qed.

Lemma validateDomain_on_RFC5322_witness :
  test RFC5322_EMAIL_REGEX "first.last@example.c" = true
  /\ exists d, afterFirst "@" "first.last@example.c" = Some d
               /\ validateDomain "first.last@example.c"
                  = tld_ok (last (split "." d) "").
Proof.
  split; [vm_compute; reflexivity|].
  apply (validateDomain_on_RFC5322 "first.last@example.c").
  vm_compute; reflexivity.
Defined.

(* ================================================================== *)
(** ** The generator page *)
(* ================================================================== *)

Section GeneratorFacts.

Lemma nonempty_iff (s : string) : nonempty s = true <-> s <> "".
Proof.
  unfold nonempty. rewrite negb_true_iff. apply String.eqb_neq.
Qed.

Lemma nonempty_toLowerCase (s : string) : nonempty (toLowerCase s) = nonempty s.
Proof. now destruct s. Qed.

Lemma append_nonempty (a b : string) : a <> "" -> a ++ b <> "".
Proof. destruct a; simpl; [congruence | discriminate]. Qed.

Lemma charAt0_nonempty (s : string) : s <> "" -> charAt0 s <> "".
Proof. destruct s; simpl; [congruence | discriminate]. Qed.

Lemma includes_charAt0 (c : ascii) (s : string) :
  includes c s = false -> includes c (charAt0 s) = false.
Proof.
  destruct s as [|x s]; simpl; [reflexivity|].
  now destruct (Ascii.eqb x c).
Qed.

Lemma charAt0_toLowerCase (s : string) :
  toLowerCase (charAt0 s) = charAt0 (toLowerCase s).
Proof. now destruct s. Qed.

Lemma replace_leading_at_toLowerCase (s : string) :
  toLowerCase (replace_leading_at s) = replace_leading_at (toLowerCase s).
Proof.
  destruct s as [|c s]; simpl; [reflexivity|].
  rewrite toLowerCase_ascii_at. now destruct (Ascii.eqb c "@").
Qed.

(** An address with an [@]-free local part and an [@]-free domain: what
    the engine's structural checks read in it. *)
Lemma address_parts (localPart d : string) :
  includes "@" localPart = false ->
  includes "@" d = false ->
  let address := localPart ++ String "@" d in
  occurrences "@" address = 1
  /\ upTo "@" address = localPart
  /\ afterFirst "@" address = Some d
  /\ validateDomain address = nonempty d && domain_ok d
  /\ isDisposableEmail address = member_ignoring_case disposableDomains d.
Proof.
  intros Hl Hd address. unfold address.
  assert (Ha : afterFirst "@" (localPart ++ String "@" d) = Some d)
    by now apply afterFirst_append.
  split_ands.
  - rewrite occurrences_append. simpl.
    rewrite (occurrences_none _ _ Hl), (occurrences_none _ _ Hd). reflexivity.
  - clear Ha. induction localPart as [|c s IH]; simpl in *.
    + reflexivity.
    + destruct (Ascii.eqb c "@"); [discriminate|]. now rewrite IH.
  - exact Ha.
  - rewrite validateDomain_is_segment. unfold validateDomain_segment.
    rewrite Ha. cbv zeta. rewrite (upTo_no_sep _ _ Hd). unfold nonempty.
    now destruct (String.eqb d "").
  - rewrite isDisposableEmail_is_segment. unfold isDisposableEmail_segment.
    now rewrite Ha, (upTo_no_sep _ _ Hd).
Qed.

End GeneratorFacts.

(** X12: nothing is generated exactly when the first name, the last name or
    the domain is empty; otherwise ten addresses are, and four more when a
    middle name is given. *)
Theorem generateEmails_count (firstName middleName lastName domain : string) :
  (GeneratePage.generateEmails firstName middleName lastName domain = None
   <-> firstName = "" \/ lastName = "" \/ domain = "")
  /\ (forall l,
         GeneratePage.generateEmails firstName middleName lastName domain = Some l ->
         List.length l = if String.eqb middleName "" then 10 else 14).
Proof.
  unfold GeneratePage.generateEmails, nonempty.
  destruct firstName, lastName, domain, middleName; simpl;
    (split; [split; [try discriminate; auto | intros [H|[H|H]]; try discriminate; auto]
            | intros l H; try discriminate; injection H as <-; reflexivity]).
Qed.

Section GeneratedAddresses.

Variables firstName middleName lastName domain : string.

Let f := toLowerCase firstName.
Let m := toLowerCase middleName.
Let l := toLowerCase lastName.
Let d := replace_leading_at (toLowerCase domain).

Ltac local_part lp If Im Il Lf Lm Ll :=
  exists lp; split;
  [ rewrite ?append_assoc; reflexivity
  | split;
    [ repeat first [ apply append_nonempty | apply charAt0_nonempty ]; assumption
    | split;
      [ rewrite ?toLowerCase_append, ?charAt0_toLowerCase, ?Lf, ?Lm, ?Ll;
        reflexivity
      | let Xf := fresh in let Xm := fresh in let Xl := fresh in
      intros Xf Xm Xl;
      specialize (If Xf); specialize (Im Xm); specialize (Il Xl);
      rewrite ?includes_append; cbn [includes Ascii.eqb Bool.eqb];
      rewrite ?(includes_charAt0 "@" f If), ?(includes_charAt0 "@" m Im),
        ?(includes_charAt0 "@" l Il), ?If, ?Im, ?Il; reflexivity ] ] ].

Lemma generateEmails_forms (emails : list GeneratePage.GeneratedEmail) :
  GeneratePage.generateEmails firstName middleName lastName domain = Some emails ->
  Forall (fun g => generated_form firstName middleName lastName d
                     (GeneratePage.email g)) emails.
Proof.
  unfold GeneratePage.generateEmails. fold f m l d.
  destruct (nonempty firstName) eqn:Hfn; [|discriminate].
  destruct (nonempty lastName) eqn:Hln; [|discriminate].
  destruct (nonempty domain) eqn:Hdn; [|discriminate].
  cbn [negb orb].
  assert (Hf : f <> "")
    by (apply nonempty_iff; unfold f; now rewrite nonempty_toLowerCase).
  assert (Hl : l <> "")
    by (apply nonempty_iff; unfold l; now rewrite nonempty_toLowerCase).
  assert (If : includes "@" firstName = false -> includes "@" f = false)
    by (intros H; unfold f; now rewrite (includes_toLowerCase _ _ toLowerCase_ascii_at)).
  assert (Im : includes "@" middleName = false -> includes "@" m = false)
    by (intros H; unfold m; now rewrite (includes_toLowerCase _ _ toLowerCase_ascii_at)).
  assert (Il : includes "@" lastName = false -> includes "@" l = false)
    by (intros H; unfold l; now rewrite (includes_toLowerCase _ _ toLowerCase_ascii_at)).
  assert (Lf : toLowerCase f = f) by apply toLowerCase_idempotent.
  assert (Lm : toLowerCase m = m) by apply toLowerCase_idempotent.
  assert (Ll : toLowerCase l = l) by apply toLowerCase_idempotent.
  unfold generated_form.
  clearbody f m l. unfold d. set (d0 := replace_leading_at (toLowerCase domain)).
  clearbody d0.
  assert (Base :
    Forall (fun g => exists localPart,
                GeneratePage.email g = localPart ++ String "@" d0
                /\ localPart <> ""
                /\ toLowerCase localPart = localPart
                /\ (includes "@" firstName = false -> includes "@" middleName = false ->
                    includes "@" lastName = false -> includes "@" localPart = false))
      [ GeneratePage.mkGenerated (f ++ "." ++ l ++ "@" ++ d0) "firstname.lastname";
        GeneratePage.mkGenerated (f ++ l ++ "@" ++ d0) "firstnamelastname";
        GeneratePage.mkGenerated (charAt0 f ++ "." ++ l ++ "@" ++ d0) "f.lastname";
        GeneratePage.mkGenerated (f ++ "." ++ charAt0 l ++ "@" ++ d0) "firstname.l";
        GeneratePage.mkGenerated (f ++ charAt0 l ++ "@" ++ d0) "firstnamel";
        GeneratePage.mkGenerated (charAt0 f ++ l ++ "@" ++ d0) "flastname";
        GeneratePage.mkGenerated (l ++ "." ++ f ++ "@" ++ d0) "lastname.firstname";
        GeneratePage.mkGenerated (l ++ f ++ "@" ++ d0) "lastnamefirstname";
        GeneratePage.mkGenerated (f ++ "_" ++ l ++ "@" ++ d0) "firstname_lastname";
        GeneratePage.mkGenerated (f ++ "-" ++ l ++ "@" ++ d0) "firstname-lastname" ]).
  { repeat apply Forall_cons; [..|apply Forall_nil]; cbn [GeneratePage.email].
    - local_part (f ++ "." ++ l) If Im Il Lf Lm Ll.
    - local_part (f ++ l) If Im Il Lf Lm Ll.
    - local_part (charAt0 f ++ "." ++ l) If Im Il Lf Lm Ll.
    - local_part (f ++ "." ++ charAt0 l) If Im Il Lf Lm Ll.
    - local_part (f ++ charAt0 l) If Im Il Lf Lm Ll.
    - local_part (charAt0 f ++ l) If Im Il Lf Lm Ll.
    - local_part (l ++ "." ++ f) If Im Il Lf Lm Ll.
    - local_part (l ++ f) If Im Il Lf Lm Ll.
    - local_part (f ++ "_" ++ l) If Im Il Lf Lm Ll.
    - local_part (f ++ "-" ++ l) If Im Il Lf Lm Ll. }
  cbv zeta.
  match type of Base with Forall _ ?L => set (L0 := L) in * end.
  clearbody L0.
  destruct (nonempty m) eqn:Hm; intros [= <-]; [|exact Base].
  apply Forall_app. split; [exact Base|].
  repeat apply Forall_cons; [..|apply Forall_nil]; cbn [GeneratePage.email].
  - local_part (f ++ "." ++ m ++ "." ++ l) If Im Il Lf Lm Ll.
  - local_part (f ++ m ++ l) If Im Il Lf Lm Ll.
  - local_part (charAt0 f ++ "." ++ charAt0 m ++ "." ++ l) If Im Il Lf Lm Ll.
  - local_part (f ++ "." ++ charAt0 m ++ "." ++ l) If Im Il Lf Lm Ll.
Qed.

End GeneratedAddresses.

(** X13: every generated address is in lower case and ends with [@] and the
    domain of the form, lower-cased and without its leading [@]. *)
Theorem generated_addresses_lower_case
    (firstName middleName lastName domain : string)
    (emails : list GeneratePage.GeneratedEmail) :
  GeneratePage.generateEmails firstName middleName lastName domain = Some emails ->
  Forall (fun g =>
            toLowerCase (GeneratePage.email g) = GeneratePage.email g
            /\ exists localPart,
                 localPart <> ""
                 /\ GeneratePage.email g
                    = localPart ++ "@" ++ replace_leading_at (toLowerCase domain))
         emails.
Proof.
  intros H. apply generateEmails_forms in H.
  eapply Forall_impl; [|exact H]. cbv beta.
  intros g (lp & -> & Hne & Hlow & _). split.
  - rewrite toLowerCase_append. cbn [toLowerCase].
    rewrite Hlow, replace_leading_at_toLowerCase, toLowerCase_idempotent.
    reflexivity.
  - now exists lp.
Qed.

Lemma generated_addresses_lower_case_witness :
  exists emails,
    GeneratePage.generateEmails "John" "" "Doe" "@Example.com" = Some emails
    /\ Forall (fun g =>
                 toLowerCase (GeneratePage.email g) = GeneratePage.email g
                 /\ exists localPart,
                      localPart <> ""
                      /\ GeneratePage.email g
                         = localPart ++ "@" ++
                           replace_leading_at (toLowerCase "@Example.com"))
              emails.
Proof.
  eexists. split; [vm_compute; reflexivity|].
  apply (generated_addresses_lower_case "John" "" "Doe" "@Example.com").
  vm_compute; reflexivity.
Defined.

(** X14: when the names and the domain hold no [@], every generated address
    holds exactly one, and the engine reads the same domain in all of them:
    they all get the domain verdict and the disposable verdict of the domain
    of the form. *)
Theorem generated_addresses_share_domain
    (firstName middleName lastName domain : string)
    (emails : list GeneratePage.GeneratedEmail) :
  includes "@" firstName = false ->
  includes "@" middleName = false ->
  includes "@" lastName = false ->
  includes "@" (replace_leading_at (toLowerCase domain)) = false ->
  GeneratePage.generateEmails firstName middleName lastName domain = Some emails ->
  let d := replace_leading_at (toLowerCase domain) in
  Forall (fun g =>
            occurrences "@" (GeneratePage.email g) = 1
            /\ upTo "@" (GeneratePage.email g) <> ""
            /\ afterFirst "@" (GeneratePage.email g) = Some d
            /\ validateDomain (GeneratePage.email g) = nonempty d && domain_ok d
            /\ isDisposableEmail (GeneratePage.email g)
               = member_ignoring_case disposableDomains d)
         emails.
Proof.
  intros Hf Hm Hl Hd H d. apply generateEmails_forms in H.
  eapply Forall_impl; [|exact H]. cbv beta.
  intros g (lp & -> & Hne & _ & Hat). specialize (Hat Hf Hm Hl).
  destruct (address_parts lp d Hat Hd) as (H1 & H2 & H3 & H4 & H5).
  subst d. split_ands; auto. now rewrite H2.
Qed.

Lemma generated_addresses_share_domain_witness :
  exists emails,
    GeneratePage.generateEmails "Ann" "B" "Lee" "mailinator.com" = Some emails
    /\ Forall (fun g =>
                 occurrences "@" (GeneratePage.email g) = 1
                 /\ upTo "@" (GeneratePage.email g) <> ""
                 /\ afterFirst "@" (GeneratePage.email g) = Some "mailinator.com"
                 /\ validateDomain (GeneratePage.email g)
                    = nonempty "mailinator.com" && domain_ok "mailinator.com"
                 /\ isDisposableEmail (GeneratePage.email g)
                    = member_ignoring_case disposableDomains "mailinator.com")
              emails.
Proof.
  eexists. split; [vm_compute; reflexivity|].
  apply (generated_addresses_share_domain "Ann" "B" "Lee" "mailinator.com");
    vm_compute; reflexivity.
Defined.

(* ================================================================== *)
(** ** The single-address page: the description of a verdict *)
(* ================================================================== *)

Section DescriptionFacts.

(** The description of a reachable record with its own score and
    status. *)
Lemma description_of_reachable (address : string) (sig : CheckSignals) :
  reachable sig = true ->
  let r := mkResult address sig (calculateEmailScore sig)
             (getEmailStatus (calculateEmailScore sig)) in
  let text := ValidatePage.getStatusDescription r in
  (status r = valid ->
   text = "This email has a high probability of being deliverable and appears to be a real, active mailbox.")
  /\ (status r = risky ->
      startsWith "This email may be valid but has concerning characteristics ("
        text = true)
  /\ (status r = invalid -> syntax sig = false ->
      text = "This email has invalid syntax and cannot be delivered.")
  /\ (status r = invalid -> syntax sig = true -> domain sig = false ->
      text = "The domain for this email address does not exist.")
  /\ text <> ""
  /\ text <> "This email appears to be valid but may have some minor concerns that could affect deliverability.".
Proof.
  destruct sig as [a b c d e f g].
  destruct a, b, c, d, e, f, g; vm_compute; intros H;
    try discriminate H; split_ands; intros; try reflexivity; discriminate.
Qed.

End DescriptionFacts.

(** X15: for the result of any run the page shows a description: a valid
    result always gets the high-probability text (the text for a valid result
    scoring from 60 to 79 is never shown, as no valid result scores below 80),
    a risky one always names a reason in brackets, and an invalid one names
    the syntax when the syntax check failed and the domain when the domain
    check failed. *)
Theorem description_of_run
    (emailSchema_parse : string -> bool) (random : nat -> float)
    (address : string) (w : World) :
  exists (r : ValidationResult) (w' : World),
    validateEmail emailSchema_parse random address w = (Returned r, w')
    /\ (status r = valid ->
        ValidatePage.getStatusDescription r
        = "This email has a high probability of being deliverable and appears to be a real, active mailbox.")
    /\ (status r = risky ->
        startsWith "This email may be valid but has concerning characteristics ("
          (ValidatePage.getStatusDescription r) = true)
    /\ (status r = invalid -> syntax (signals r) = false ->
        ValidatePage.getStatusDescription r
        = "This email has invalid syntax and cannot be delivered.")
    /\ (status r = invalid -> syntax (signals r) = true ->
        domain (signals r) = false ->
        ValidatePage.getStatusDescription r
        = "The domain for this email address does not exist.")
    /\ ValidatePage.getStatusDescription r <> ""
    /\ ValidatePage.getStatusDescription r
       <> "This email appears to be valid but may have some minor concerns that could affect deliverability.".
Proof.
  destruct (validateEmail_result emailSchema_parse random address w)
    as (r & w' & Hrun & _ & _ & Hsc & Hst & Hre & _).
  exists r, w'. split; [exact Hrun|].
  destruct r as [e sig sc st]. cbn [signals score status] in *. subst sc st.
  exact (description_of_reachable e sig Hre).
Qed.

(* ================================================================== *)
(** ** The bulk page: reading the uploaded file *)
(* ================================================================== *)

Section TextFacts.

Lemma split_segments_no_sep (sep : ascii) (s : string) :
  Forall (fun seg => includes sep seg = false) (split sep s).
Proof.
  induction s as [|c s IH]; simpl.
  - repeat constructor.
  - destruct (Ascii.eqb c sep) eqn:E.
    + constructor; [reflexivity | exact IH].
    + destruct (split sep s) as [|seg rest]; [repeat constructor; simpl; now rewrite E|].
      inversion IH as [|? ? Hseg Hrest]; subst.
      constructor; [simpl; now rewrite E | exact Hrest].
Qed.

(** The segments of a string without [c] hold no [c] either. *)
Lemma split_segments_keep_out (sep c : ascii) (s : string) :
  includes c s = false ->
  Forall (fun seg => includes c seg = false) (split sep s).
Proof.
  induction s as [|x s IH]; simpl.
  - intros _. repeat constructor.
  - destruct (Ascii.eqb x c) eqn:Ex; [discriminate|]. intros H.
    specialize (IH H). destruct (Ascii.eqb x sep).
    + constructor; [reflexivity | exact IH].
    + destruct (split sep s) as [|seg rest]; [repeat constructor; simpl; now rewrite Ex|].
      inversion IH as [|? ? Hseg Hrest]; subst.
      constructor; [simpl; now rewrite Ex, Hseg | exact Hrest].
Qed.

Lemma trimStart_keeps_out (c : ascii) (s : string) :
  includes c s = false -> includes c (trimStart s) = false.
Proof.
  induction s as [|x s IH]; simpl; [reflexivity|].
  destruct (Ascii.eqb x c) eqn:E; [discriminate|]. intros H.
  destruct (is_space x); [auto | simpl; now rewrite E].
Qed.

Lemma trimEnd_keeps_out (c : ascii) (s : string) :
  includes c s = false -> includes c (trimEnd s) = false.
Proof.
  induction s as [|x s IH]; simpl; [reflexivity|].
  destruct (Ascii.eqb x c) eqn:E; [discriminate|]. intros H.
  specialize (IH H). destruct (trimEnd s) as [|y t].
  - destruct (is_space x); simpl; [reflexivity | now rewrite E].
  - simpl. rewrite E. exact IH.
Qed.

Lemma trim_keeps_out (c : ascii) (s : string) :
  includes c s = false -> includes c (trim s) = false.
Proof.
  intros H. unfold trim. now apply trimEnd_keeps_out, trimStart_keeps_out.
Qed.

Lemma remove_all_keeps_out (q c : ascii) (s : string) :
  includes c s = false -> includes c (remove_all q s) = false.
Proof.
  induction s as [|x s IH]; simpl; [reflexivity|].
  destruct (Ascii.eqb x c) eqn:E; [discriminate|]. intros H.
  destruct (Ascii.eqb x q); [auto | simpl; rewrite E; auto].
Qed.

Lemma remove_all_removes (q : ascii) (s : string) :
  includes q (remove_all q s) = false.
Proof.
  induction s as [|x s IH]; simpl; [reflexivity|].
  destruct (Ascii.eqb x q) eqn:E; [exact IH | simpl; now rewrite E].
Qed.

Lemma remove_all_none (q : ascii) (s : string) :
  includes q s = false -> remove_all q s = s.
Proof.
  induction s as [|x s IH]; simpl; [reflexivity|].
  destruct (Ascii.eqb x q); [discriminate|]. intros H. now rewrite IH.
Qed.

End TextFacts.

Section IndexFacts.

Context {A : Type}.

Lemma filter_from_In (p : A -> nat -> bool) (l : list A) :
  forall k x,
    In x (filter_from p k l) <->
    exists j, nth_error l j = Some x /\ p x (k + j) = true.
Proof.
  induction l as [|y l IH]; intros k x; simpl.
  - split; [tauto | intros ([|j] & H & _); discriminate].
  - split.
    + destruct (p y k) eqn:Hy.
      * intros [-> | H].
        -- exists 0. now rewrite Nat.add_0_r.
        -- apply IH in H as (j & Hj & Hp). exists (S j).
           now rewrite Nat.add_succ_r.
      * intros H. apply IH in H as (j & Hj & Hp). exists (S j).
        now rewrite Nat.add_succ_r.
    + intros ([|j] & Hj & Hp); simpl in Hj.
      * injection Hj as ->. rewrite Nat.add_0_r in Hp. rewrite Hp. now left.
      * assert (In x (filter_from p (S k) l)).
        { apply IH. exists j. now rewrite Nat.add_succ_r in Hp. }
        destruct (p y k); [now right | assumption].
Qed.

(** A test that holds at one index at most for each value keeps each
    value once at most. *)
Lemma filter_from_NoDup (p : A -> nat -> bool) (l : list A) :
  (forall x i j, p x i = true -> p x j = true -> i = j) ->
  forall k, NoDup (filter_from p k l).
Proof.
  intros Hp. induction l as [|y l IH]; intros k; simpl; [constructor|].
  destruct (p y k) eqn:Hy; [|apply IH].
  constructor; [|apply IH].
  intros H. apply filter_from_In in H as (j & _ & Hj).
  specialize (Hp _ _ _ Hy Hj). lia.
Qed.

Lemma findIndex_Some (p : A -> bool) (l : list A) (i : nat) :
  findIndex p l = Some i ->
  exists x, nth_error l i = Some x /\ p x = true
            /\ forall j y, j < i -> nth_error l j = Some y -> p y = false.
Proof.
  revert i. induction l as [|y l IH]; intros i; simpl; [discriminate|].
  destruct (p y) eqn:Hy.
  - intros [= <-]. exists y. split_ands; auto. intros j z Hj. lia.
  - destruct (findIndex p l) as [n|]; [|discriminate]. intros [= <-].
    destruct (IH n eq_refl) as (x & Hx & Hpx & Hfirst).
    exists x. split_ands; auto.
    intros [|j] z Hj Hz; simpl in Hz; [congruence|].
    apply (Hfirst j); [lia | exact Hz].
Qed.

Lemma findIndex_exists (p : A -> bool) (l : list A) (x : A) :
  In x l -> p x = true -> exists i, findIndex p l = Some i.
Proof.
  induction l as [|y l IH]; simpl; [tauto|].
  intros Hin Hx. destruct (p y) eqn:Hy; [now exists 0|].
  destruct Hin as [-> | Hin]; [congruence|].
  destruct (IH Hin Hx) as (i & ->). now exists (S i).
Qed.

End IndexFacts.

Section UploadFacts.

Lemma indexOf_Some (l : list string) (x : string) (i : nat) :
  indexOf l x = Some i -> nth_error l i = Some x.
Proof.
  unfold indexOf. intros H. apply findIndex_Some in H as (y & Hy & E & _).
  apply String.eqb_eq in E. now subst.
Qed.

Lemma indexOf_In (l : list string) (x : string) :
  In x l -> exists i, indexOf l x = Some i.
Proof.
  intros H. apply (findIndex_exists _ l x H). apply String.eqb_refl.
Qed.

(** [remove_duplicates] keeps every value of the list, once. *)
Lemma remove_duplicates_spec (l : list string) :
  NoDup (BulkPage.remove_duplicates l)
  /\ forall x, In x (BulkPage.remove_duplicates l) <-> In x l.
Proof.
  unfold BulkPage.remove_duplicates, filter_indexed. split.
  - apply filter_from_NoDup. intros x i j Hi Hj.
    unfold option_nat_eqb in *.
    destruct (indexOf l x) as [n|]; [|discriminate].
    apply Nat.eqb_eq in Hi, Hj. congruence.
  - intros x. rewrite filter_from_In. split.
    + intros (j & Hj & _). now apply nth_error_In in Hj.
    + intros Hin. destruct (indexOf_In l x Hin) as (i & Hi).
      exists i. split; [now apply indexOf_Some|].
      simpl. rewrite Hi. simpl. apply Nat.eqb_refl.
Qed.

(** On a list without repetition [remove_duplicates] changes nothing. *)
Lemma remove_duplicates_NoDup (l : list string) :
  NoDup l -> BulkPage.remove_duplicates l = l.
Proof.
  unfold BulkPage.remove_duplicates, filter_indexed.
  assert (G : forall pre suf, NoDup (pre ++ suf) ->
                filter_from (fun v index => option_nat_eqb (indexOf (pre ++ suf) v) index)
                  (List.length pre) suf = suf).
  { intros pre suf. revert pre. induction suf as [|x suf IH]; intros pre Hnd; simpl.
    - reflexivity.
    - assert (Hi : indexOf (pre ++ x :: suf) x = Some (List.length pre)).
      { destruct (indexOf_In (pre ++ x :: suf) x) as (i & Hi).
        - apply in_or_app. right. now left.
        - rewrite Hi. f_equal. apply indexOf_Some in Hi.
          apply (proj1 (NoDup_nth_error (pre ++ x :: suf)) Hnd).
          + apply nth_error_Some. congruence.
          + rewrite Hi, nth_error_app2, Nat.sub_diag by lia. reflexivity. }
      rewrite Hi. simpl. rewrite Nat.eqb_refl. f_equal.
      specialize (IH (pre ++ [x])%list).
      rewrite <- app_assoc, length_app in IH. simpl in IH.
      rewrite Nat.add_1_r in IH. apply IH. exact Hnd. }
  intros H. exact (G [] l H).
Qed.

Lemma filter_addresses_In (values : list (option string)) (x : string) :
  In x (BulkPage.filter_addresses values) <->
  In (Some x) values /\ x <> "" /\ includes "@" x = true.
Proof.
  induction values as [|[v|] rest IH]; simpl.
  - tauto.
  - destruct (nonempty v && includes "@" v) eqn:E.
    + simpl. rewrite IH. apply andb_true_iff in E as [E1 E2].
      apply nonempty_iff in E1. split.
      * intros [-> | (H1 & H2 & H3)]; auto.
      * intros ([[= ->] | H1] & H2 & H3); auto.
    + rewrite IH. split.
      * intros (H1 & H2 & H3); auto.
      * intros ([[= ->] | H1] & H2 & H3); auto.
        apply nonempty_iff in H2. rewrite H2, H3 in E. discriminate.
  - rewrite IH. split.
    + intros (H1 & H2 & H3); auto.
    + intros ([H | H1] & H2 & H3); [discriminate | auto].
Qed.

End UploadFacts.

Lemma processFile_uploaded_facts (text : string) (emails : list string) :
  BulkPage.processFile text = BulkPage.Uploaded emails ->
  emails <> []
  /\ NoDup emails
  /\ Forall (fun e => includes "@" e = true
                      /\ includes BulkPage.comma e = false
                      /\ includes BulkPage.newline e = false
                      /\ includes BulkPage.quote e = false) emails.
Proof.
  unfold BulkPage.processFile.
  destruct (filter _ (split BulkPage.newline text)) as [|first others] eqn:Hlines;
    [discriminate|].
  destruct (findIndex _ _) as [k|]; [|discriminate].
  set (values := map _ others).
  destruct (BulkPage.remove_duplicates (BulkPage.filter_addresses values))
    as [|e0 es] eqn:He; [discriminate|].
  intros [= <-]. rewrite <- He.
  destruct (remove_duplicates_spec (BulkPage.filter_addresses values)) as [Hnd Hin].
  split; [rewrite He; discriminate|]. split; [exact Hnd|].
  apply Forall_forall. intros e Hi. apply Hin, filter_addresses_In in Hi.
  destruct Hi as (Hv & _ & Hat). split; [exact Hat|].
  unfold values in Hv. apply in_map_iff in Hv as (line & Hline & Hother).
  assert (Hl : In line (split BulkPage.newline text)).
  { assert (H : In line (first :: others)) by now right.
    rewrite <- Hlines in H. now apply filter_In in H. }
  destruct (nth_error (split BulkPage.comma line) k) as [col|] eqn:Hcol;
    [|discriminate].
  cbn [option_map] in Hline. injection Hline as <-.
  apply nth_error_In in Hcol.
  pose proof (split_segments_no_sep BulkPage.comma line) as Hc.
  pose proof (split_segments_no_sep BulkPage.newline text) as Hn.
  rewrite Forall_forall in Hc, Hn.
  split_ands.
  - apply remove_all_keeps_out, trim_keeps_out. auto.
  - apply remove_all_keeps_out, trim_keeps_out.
    pose proof (split_segments_keep_out BulkPage.comma BulkPage.newline line (Hn _ Hl)) as H.
    rewrite Forall_forall in H. auto.
  - apply remove_all_removes.
Qed.



Section HeaderFacts.

Lemma includes_string_iff (needle s : string) :
  includes_string needle s = true <-> exists a b, s = a ++ needle ++ b.
Proof.
  split.
  - induction s as [|c s IH].
    + simpl. rewrite orb_false_r. intros H.
      apply startsWith_iff in H as (rest & ->). now exists "", rest.
    + cbn [includes_string]. intros H. apply orb_true_iff in H as [H | H].
      * apply startsWith_iff in H as (rest & ->). now exists "", rest.
      * destruct (IH H) as (a & b & ->). now exists (String c a), b.
  - intros (a & b & ->). induction a as [|c a IH].
    + simpl. destruct (needle ++ b) eqn:E; cbn [includes_string];
        rewrite <- E; apply orb_true_iff; left; apply startsWith_iff; now exists b.
    + change (String c a ++ needle ++ b) with (String c (a ++ needle ++ b)).
      cbn [includes_string]. rewrite IH. apply orb_true_r.
Qed.

Lemma includes_string_longer (pre needle s : string) :
  includes_string (pre ++ needle) s = true -> includes_string needle s = true.
Proof.
  rewrite !includes_string_iff. intros (a & b & ->).
  exists (a ++ pre), b. now rewrite !append_assoc.
Qed.

End HeaderFacts.

(** X17: the test that picks the email column is the test for [mail] alone:
    the column read is the first whose header, trimmed, lower-cased and
    unquoted, contains [mail], be it [email], [gmail] or [mailing list]. *)
Theorem email_column_is_first_mail_header :
  (forall h : string, BulkPage.is_email_header h = includes_string "mail" h)
  /\ (forall headers : list string,
         findIndex BulkPage.is_email_header headers
         = findIndex (includes_string "mail") headers).
Proof.
  assert (H : forall h, BulkPage.is_email_header h = includes_string "mail" h).
  { intros h. unfold BulkPage.is_email_header.
    destruct (includes_string "mail" h) eqn:Hm; [apply orb_true_r|].
    rewrite orb_false_r.
    destruct (includes_string "email" h) eqn:He.
    - apply (includes_string_longer "e" "mail") in He. congruence.
    - destruct (includes_string "e-mail" h) eqn:Hd; [|reflexivity].
      apply (includes_string_longer "e-" "mail") in Hd. congruence. }
  split; [exact H|].
  induction headers as [|h hs IH]; simpl; [reflexivity|]. now rewrite H, IH.
Qed.

(* ================================================================== *)
(** ** The bulk page: validating the list *)
(* ================================================================== *)

Section BulkFacts.

Variable emailSchema_parse : string -> bool.
Variable random : nat -> float.

Lemma validate_loop_spec (total : nat) (emails : list string) :
  forall i acc progress w,
  exists rs progress' w',
    BulkPage.validate_loop emailSchema_parse random total i emails acc progress w
    = ((acc ++ rs, progress', None), w')%list
    /\ map email rs = emails
    /\ Forall (engine_result emailSchema_parse) rs.
Proof.
  induction emails as [|address rest IH]; intros i acc progress w.
  - exists [], progress, w. simpl. rewrite app_nil_r. auto.
  - destruct (validateEmail_result emailSchema_parse random address w)
      as (r & w1 & Hrun & He & Hsy & Hsc & Hst & Hre & _).
    cbn [BulkPage.validate_loop]. unfold BulkPage.try_catch. rewrite Hrun.
    cbv zeta.
    match goal with
    | |- context [BulkPage.validate_loop _ _ _ ?i' _ ?acc' ?p' _] =>
        destruct (IH i' acc' p' w1) as (rs & progress' & w' & Hloop & Hmap & Hall)
    end.
    exists (r :: rs), progress', w'. rewrite Hloop. split_ands.
    + now rewrite <- app_assoc.
    + simpl. now rewrite He, Hmap.
    + constructor; [|exact Hall]. unfold engine_result. rewrite He. auto.
Qed.

Lemma count_status_total (l : list ValidationResult) :
  BulkPage.count_status valid l + BulkPage.count_status risky l
  + BulkPage.count_status invalid l = List.length l.
Proof.
  unfold BulkPage.count_status.
  induction l as [|r l IH]; simpl; [reflexivity|].
  destruct (status r); simpl; lia.
Qed.

End BulkFacts.

Lemma validateEmails_facts
    (emailSchema_parse : string -> bool) (random : nat -> float)
    (emails : list string) (w : World) :
  exists (run : BulkPage.BulkRun) (w' : World),
    BulkPage.validateEmails emailSchema_parse random (Some emails) w
    = (Some run, w')
    /\ map email (BulkPage.results run) = emails
    /\ Forall (engine_result emailSchema_parse) (BulkPage.results run)
    /\ exists validCount riskyCount invalidCount,
         BulkPage.toast run
         = BulkPage.ValidationComplete validCount riskyCount invalidCount
         /\ validCount + riskyCount + invalidCount = List.length emails.
Proof.
  unfold BulkPage.validateEmails.
  destruct (validate_loop_spec emailSchema_parse random (List.length emails)
              emails 0 [] (Num 0) w)
    as (rs & progress & w' & -> & Hmap & Hall).
  cbn [app]. eexists; eexists. split; [reflexivity|].
  cbn [BulkPage.results BulkPage.toast]. split_ands; auto.
  eexists; eexists; eexists. split; [reflexivity|].
  rewrite count_status_total, <- Hmap. symmetry. apply length_map.
Qed.


(* ================================================================== *)
(** ** The bulk page: the downloaded file read back *)
(* ================================================================== *)

Section DownloadFacts.

Lemma split_join (sep : ascii) (l : list string) :
  l <> [] ->
  Forall (fun x => includes sep x = false) l ->
  split sep (join (String sep "") l) = l.
Proof.
  induction l as [|x l IH]; [congruence|]. intros _ H.
  inversion H as [|? ? Hx Hl]; subst.
  destruct l as [|y l].
  - simpl. now apply split_no_sep.
  - change (join (String sep "") (x :: y :: l))
      with (x ++ String sep (join (String sep "") (y :: l))).
    rewrite split_append_sep by exact Hx.
    rewrite IH; [reflexivity | discriminate | exact Hl].
Qed.

Lemma upTo_append_sep (sep : ascii) (a b : string) :
  includes sep a = false -> upTo sep (a ++ String sep b) = a.
Proof.
  induction a as [|c a IH]; simpl.
  - now rewrite Ascii.eqb_refl.
  - destruct (Ascii.eqb c sep); [discriminate|]. intros H. now rewrite IH.
Qed.

Lemma trimEnd_nonspace_end (s : string) (c : ascii) :
  is_space c = false -> trimEnd (s ++ String c "") = s ++ String c "".
Proof.
  intros Hc. induction s as [|x s IH]; simpl.
  - now rewrite Hc.
  - rewrite IH. destruct (s ++ String c "") eqn:E; [|reflexivity].
    destruct s; discriminate.
Qed.

Lemma trimEnd_nonempty (c : ascii) (s : string) :
  is_space c = false -> trimEnd (String c s) <> "".
Proof.
  intros Hc. simpl. destruct (trimEnd s); [rewrite Hc|]; discriminate.
Qed.

Lemma remove_all_append (q : ascii) (a b : string) :
  remove_all q (a ++ b) = remove_all q a ++ remove_all q b.
Proof.
  induction a as [|c a IH]; simpl; [reflexivity|].
  destruct (Ascii.eqb c q); [exact IH | simpl; now rewrite IH].
Qed.

(** The digits of an integer hold neither comma nor line break. *)
Lemma string_of_uint_chars (c : ascii) (d : Decimal.uint) :
  is_digit c = false ->
  includes c (DecimalString.NilEmpty.string_of_uint d) = false.
Proof.
  intros Hc.
  induction d; cbn [includes DecimalString.NilEmpty.string_of_uint];
    try reflexivity;
    match goal with
    | |- (if Ascii.eqb ?x c then _ else _) = _ =>
        destruct (Ascii.eqb x c) eqn:E; [|assumption];
        apply Ascii.eqb_eq in E; subst c; discriminate Hc
    end.
Qed.

Lemma number_to_string_chars (c : ascii) (x : number) :
  c = BulkPage.comma \/ c = BulkPage.newline ->
  includes c (number_to_string x) = false.
Proof.
  intros Hc.
  assert (Hd : is_digit c = false) by (destruct Hc; subst; reflexivity).
  assert (Hm : Ascii.eqb "-" c = false) by (destruct Hc; subst; reflexivity).
  destruct x as [z| |[]]; try (destruct Hc; subst; reflexivity).
  assert (Hu : forall d, includes c (DecimalString.NilZero.string_of_uint d) = false).
  { intros d. destruct d; try apply (string_of_uint_chars c _ Hd).
    destruct Hc; subst; reflexivity. }
  unfold number_to_string, DecimalString.NilZero.string_of_int.
  destruct (Z.to_int z) as [d|d]; [apply Hu|].
  cbn [includes]. rewrite Hm. apply Hu.
Qed.

(** The first column of a line of the download is the quoted address;
    the line holds no line break. *)
Lemma csv_row_shape (r : ValidationResult) :
  includes BulkPage.comma (email r) = false ->
  includes BulkPage.newline (email r) = false ->
  let quoted := String BulkPage.quote (email r ++ String BulkPage.quote "") in
  (exists rest, BulkPage.csv_row r = quoted ++ String BulkPage.comma rest)
  /\ includes BulkPage.comma quoted = false
  /\ includes BulkPage.newline (BulkPage.csv_row r) = false.
Proof.
  intros Hc Hn quoted. split_ands.
  - eexists. unfold BulkPage.csv_row. cbn [join]. reflexivity.
  - unfold quoted. cbn [includes]. rewrite includes_append, Hc. reflexivity.
  - unfold BulkPage.csv_row. cbn [join].
    rewrite !includes_append.
    rewrite (number_to_string_chars BulkPage.newline (score r)) by now right.
    cbn [includes append]. rewrite includes_append, Hn.
    destruct r as [e [a b c d f g h] sc st]; cbn [signals syntax domain mx
      disposable roleBased catchAll smtp status email score].
    destruct a, b, c, d, f, g, h, st; reflexivity.
Qed.

End DownloadFacts.

Section RoundTrip.

Variable results : list ValidationResult.

Hypothesis addresses_clean :
  Forall (fun r => includes "@" (email r) = true
                   /\ includes BulkPage.comma (email r) = false
                   /\ includes BulkPage.newline (email r) = false
                   /\ includes BulkPage.quote (email r) = false) results.

Let header := join "," BulkPage.csv_headers.
Let rows := map BulkPage.csv_row results.

Lemma csv_lines :
  split BulkPage.newline (join (String BulkPage.newline "") (header :: rows))
  = header :: rows.
Proof.
  apply split_join; [discriminate|]. constructor; [reflexivity|].
  apply Forall_forall. intros x Hx.
  apply in_map_iff in Hx as (r & <- & Hr).
  rewrite Forall_forall in addresses_clean.
  destruct (addresses_clean r Hr) as (_ & Hc & Hn & _).
  now apply csv_row_shape.
Qed.

Lemma csv_lines_not_blank :
  filter (fun line => nonempty (trim line)) (header :: rows) = header :: rows.
Proof.
  cbn [filter].
  assert (Hh : nonempty (trim header) = true) by (vm_compute; reflexivity).
  rewrite Hh. f_equal. unfold rows. clear addresses_clean.
  induction results as [|r rs IH]; [reflexivity|].
  cbn [map filter].
  assert (Hr : nonempty (trim (BulkPage.csv_row r)) = true).
  { apply nonempty_iff. unfold BulkPage.csv_row. cbn [join append].
    unfold trim. cbn [trimStart].
    change (is_space BulkPage.quote) with false. cbv iota.
    now apply trimEnd_nonempty. }
  now rewrite Hr, IH.
Qed.

Lemma csv_first_column (r : ValidationResult) :
  In r results ->
  option_map (fun v => remove_all BulkPage.quote (trim v))
    (nth_error (split BulkPage.comma (BulkPage.csv_row r)) 0)
  = Some (email r).
Proof.
  intros Hr. rewrite Forall_forall in addresses_clean.
  destruct (addresses_clean r Hr) as (_ & Hc & Hn & Hq).
  destruct (csv_row_shape r Hc Hn) as ((rest & ->) & Hcq & _).
  rewrite split_first, upTo_append_sep by exact Hcq.
  cbn [option_map]. f_equal.
  unfold trim. cbn [trimStart].
  change (is_space BulkPage.quote) with false. cbv iota.
  change (String BulkPage.quote (email r ++ String BulkPage.quote ""))
    with (String BulkPage.quote (email r) ++ String BulkPage.quote "").
  rewrite trimEnd_nonspace_end by reflexivity.
  rewrite remove_all_append. cbn [remove_all].
  rewrite Ascii.eqb_refl, (remove_all_none _ _ Hq). apply append_empty_r.
Qed.

Lemma csv_addresses :
  BulkPage.filter_addresses (map (fun r => Some (email r)) results)
  = map email results.
Proof.
  induction results as [|r rs IH]; [reflexivity|].
  inversion addresses_clean as [|? ? (Hat & _) Hrest]; subst.
  cbn [map BulkPage.filter_addresses]. rewrite Hat.
  assert (Hne : nonempty (email r) = true).
  { apply nonempty_iff. intros E. rewrite E in Hat. discriminate. }
  rewrite Hne. cbn [andb]. now rewrite IH.
Qed.

End RoundTrip.

Lemma download_then_upload_facts (results : list ValidationResult) :
  results <> [] ->
  Forall (fun r => includes "@" (email r) = true
                   /\ includes BulkPage.comma (email r) = false
                   /\ includes BulkPage.newline (email r) = false
                   /\ includes BulkPage.quote (email r) = false) results ->
  exists csvContent,
    BulkPage.downloadResults results = Some csvContent
    /\ BulkPage.processFile csvContent
       = BulkPage.Uploaded (BulkPage.remove_duplicates (map email results)).
Proof.
  intros Hne Hall.
  exists (join (String BulkPage.newline "")
            (join "," BulkPage.csv_headers :: map BulkPage.csv_row results)).
  split.
  - destruct results; [congruence | reflexivity].
  - unfold BulkPage.processFile.
    rewrite (csv_lines results Hall), (csv_lines_not_blank results).
    cbv iota beta zeta.
    assert (Hidx : findIndex BulkPage.is_email_header
                     (map (fun h => remove_all BulkPage.quote (toLowerCase (trim h)))
                        (split BulkPage.comma (join "," BulkPage.csv_headers)))
                   = Some 0) by (vm_compute; reflexivity).
    rewrite Hidx. cbv iota beta.
    rewrite map_map.
    rewrite (map_ext_in _ (fun r => Some (email r)) results)
      by (intros r Hr; now apply (csv_first_column results Hall)).
    rewrite (csv_addresses results Hall).
    destruct (BulkPage.remove_duplicates (map email results)) as [|e es] eqn:E;
      [|reflexivity].
    destruct results as [|r rs]; [congruence|].
    assert (Hin : In (email r) (BulkPage.remove_duplicates (map email (r :: rs))))
      by (apply remove_duplicates_spec; now left).
    rewrite E in Hin. destruct Hin.
Qed.

(** X19: the downloaded file, uploaded again, gives the addresses of the
    results back (each once): its first column is found as the email column
    and every line is read as one address. This needs addresses with an [@]
    and without comma, line break or double quote, as [processFile] stores
    them. *)
Theorem download_then_upload (results : list ValidationResult) :
  results <> [] ->
  Forall (fun r => includes "@" (email r) = true
                   /\ includes BulkPage.comma (email r) = false
                   /\ includes BulkPage.newline (email r) = false
                   /\ includes BulkPage.quote (email r) = false) results ->
  exists csvContent,
    BulkPage.downloadResults results = Some csvContent
    /\ BulkPage.processFile csvContent
       = BulkPage.Uploaded (BulkPage.remove_duplicates (map email results)).
Proof. apply download_then_upload_facts. Qed.

Lemma download_then_upload_witness :
  exists csvContent,
    BulkPage.downloadResults
      [mkResult "a@b.com" (mkSignals true true true false false false true)
         (Num 100) valid;
       mkResult "a@b.com" (mkSignals true true true false false false false)
         (Num 67) risky]
    = Some csvContent
    /\ BulkPage.processFile csvContent
       = BulkPage.Uploaded (BulkPage.remove_duplicates ["a@b.com"; "a@b.com"]).
Proof.
  apply (download_then_upload
           [mkResult "a@b.com" (mkSignals true true true false false false true)
              (Num 100) valid;
            mkResult "a@b.com" (mkSignals true true true false false false false)
              (Num 67) risky]).
  - discriminate.
  - repeat constructor.
Defined.

(** X20: a whole cycle: the addresses read from a file, validated in bulk and
    downloaded, are read back unchanged from the downloaded file. *)
Theorem upload_validate_download_upload
    (emailSchema_parse : string -> bool) (random : nat -> float)
    (text : string) (emails : list string) (w : World) :
  BulkPage.processFile text = BulkPage.Uploaded emails ->
  exists (run : BulkPage.BulkRun) (w' : World) (csvContent : string),
    BulkPage.validateEmails emailSchema_parse random (Some emails) w
    = (Some run, w')
    /\ BulkPage.downloadResults (BulkPage.results run) = Some csvContent
    /\ BulkPage.processFile csvContent = BulkPage.Uploaded emails.
Proof.
  intros Hup. apply processFile_uploaded_facts in Hup as (Hne & Hnd & Hclean).
  destruct (validateEmails_facts emailSchema_parse random emails w)
    as (run & w' & Hrun & Hmap & _).
  assert (Hres : BulkPage.results run <> []).
  { intros E. rewrite E in Hmap. simpl in Hmap. congruence. }
  assert (Hall : Forall (fun r => includes "@" (email r) = true
                   /\ includes BulkPage.comma (email r) = false
                   /\ includes BulkPage.newline (email r) = false
                   /\ includes BulkPage.quote (email r) = false)
                  (BulkPage.results run)).
  { apply Forall_forall. intros r Hr.
    rewrite Forall_forall in Hclean. apply (Hclean (email r)).
    rewrite <- Hmap. now apply in_map. }
  destruct (download_then_upload_facts _ Hres Hall) as (csv & Hcsv & Hback).
  exists run, w', csv. split_ands; auto.
  now rewrite Hback, Hmap, remove_duplicates_NoDup.
Qed.

Lemma upload_validate_download_upload_witness :
  BulkPage.processFile
    ("Name,Email" ++ String BulkPage.newline ("Bob, bob@gmail.com" ++
       String BulkPage.newline "Eve,eve@mailinator.com"))
  = BulkPage.Uploaded ["bob@gmail.com"; "eve@mailinator.com"]
  /\ exists (run : BulkPage.BulkRun) (w' : World) (csvContent : string),
       BulkPage.validateEmails emailSchema_spec (fun _ => 0.5%float)
         (Some ["bob@gmail.com"; "eve@mailinator.com"]) fresh
       = (Some run, w')
       /\ BulkPage.downloadResults (BulkPage.results run) = Some csvContent
       /\ BulkPage.processFile csvContent
          = BulkPage.Uploaded ["bob@gmail.com"; "eve@mailinator.com"].
Proof.
  split; [vm_compute; reflexivity|].
  apply (upload_validate_download_upload emailSchema_spec (fun _ => 0.5%float)
           ("Name,Email" ++ String BulkPage.newline ("Bob, bob@gmail.com" ++
              String BulkPage.newline "Eve,eve@mailinator.com"))).
  vm_compute; reflexivity.
Defined.
